(** * AMUSEt (tEDMD) drivers of scikit_tt: [scikit_tt/data_driven/tedmd.py]

    A shallow embedding of [amuset_hosvd], [amuset_hocur] and
    [_reduced_matrix], with the Python object store made explicit (array
    buffers and TT objects are heap objects that can be aliased), numpy's
    array operations written out on shaped arrays, and the routines that the
    module only calls (LAPACK's SVD and eigen-solver, scikit_tt's transform
    and orthonormalisation) taken as interfaces. *)

From Stdlib Require Import ZArith List Bool Lia QArith Qabs Floats.
From stdpp Require Import base list option.

(** ** Scalars

    numpy computes on IEEE-754 binary64.  The embedding is written against
    the operations it uses, so that it runs on Rocq's primitive binary64
    floats ([float64] below) and, for facts that need exact arithmetic, on
    rationals. *)

Class Scalar := {
  F : Type;
  fof_Z : Z -> F;             (* an integer literal *)
  fadd : F -> F -> F;
  fsub : F -> F -> F;
  fmul : F -> F -> F;
  fdiv : F -> F -> F;
  fhypot : F -> F -> F;       (* [np.abs] of a complex number *)
  flt : F -> F -> bool;       (* [a < b] *)
  fle : F -> F -> bool;       (* [a <= b] *)
  fisfinite : F -> bool;      (* [np.isfinite] *)
}.

Definition float_hypot (x y : float) : float :=
  if PrimFloat.eqb y 0 then PrimFloat.abs x
  else if PrimFloat.eqb x 0 then PrimFloat.abs y
  else PrimFloat.sqrt (x * x + y * y).

Definition float_of_Z (z : Z) : float :=
  match z with
  | Z0 => 0%float
  | Zpos p => PrimFloat.of_uint63 (Uint63.of_Z (Zpos p))
  | Zneg p => PrimFloat.opp (PrimFloat.of_uint63 (Uint63.of_Z (Zpos p)))
  end.

(** binary64, as numpy's [float64].  [float_hypot] agrees with the C
    library's [hypot] whenever one component is zero and whenever the sum of
    squares is computed exactly. *)
Definition float64 : Scalar := {|
  F := float;
  fof_Z := float_of_Z;
  fadd := PrimFloat.add;
  fsub := PrimFloat.sub;
  fmul := PrimFloat.mul;
  fdiv := PrimFloat.div;
  fhypot := float_hypot;
  flt := PrimFloat.ltb;
  fle := PrimFloat.leb;
  fisfinite := fun x => PrimFloat.ltb (PrimFloat.abs x) infinity;
|}.


(** ** Python exceptions and results *)

Inductive exn :=
| IndexError       (* index out of range, too many indices *)
| ValueError       (* shape mismatch, "expected matrix" *)
| LinAlgError      (* numpy/scipy linear-algebra failure *)
| ExternalError    (* raised inside the transform or the orthonormaliser *)
| Unmodelled.      (* an array rank this embedding does not cover *)

Inductive result (A : Type) :=
| Ok (a : A)
| Raise (e : exn).
Arguments Ok {A} a.
Arguments Raise {A} e.

Definition rbind {A B} (r : result A) (k : A -> result B) : result B :=
  match r with
  | Ok a => k a
  | Raise e => Raise e
  end.

Fixpoint rmapM {A B} (f : A -> result B) (l : list A) : result (list B) :=
  match l with
  | [] => Ok []
  | a :: l' => rbind (f a) (fun b => rbind (rmapM f l') (fun bs => Ok (b :: bs)))
  end.

(** ** numpy arrays and the array operations the module uses *)

Section Numpy.
Context {S : Scalar}.

(** An array: its shape and its elements in row-major (C) order. *)
Record ndarray := NDArray { shape : list nat; data : list F }.

Definition prod_shape (sh : list nat) : nat := fold_right Nat.mul 1 sh.

(** Element [(i, j)] of a matrix with [c] columns stored row-major. *)
Definition mget (c : nat) (d : list F) (i j : nat) : F := nth (i * c + j) d (fof_Z 0).

(** An integer index into an axis of length [n]; negative indices count
    from the end, anything else is an IndexError. *)
Definition norm_index (n : nat) (j : Z) : result nat :=
  if ((0 <=? j) && (j <? Z.of_nat n))%Z then Ok (Z.to_nat j)
  else if ((- Z.of_nat n <=? j) && (j <? 0))%Z then Ok (Z.to_nat (j + Z.of_nat n))
  else Raise IndexError.

(** [a[:, idx, :, :]] with [idx] an integer index array: advanced indexing,
    the result is a new array. *)
Definition getitem_axis1 (a : ndarray) (idx : list Z) : result ndarray :=
  match shape a with
  | d0 :: d1 :: d2 :: d3 :: rest =>
      rbind (rmapM (norm_index d1) idx) (fun js =>
      let blk := prod_shape (d2 :: d3 :: rest) in
      Ok {| shape := d0 :: length idx :: d2 :: d3 :: rest;
            data := flat_map (fun i0 =>
                      flat_map (fun j => take blk (drop ((i0 * d1 + j) * blk) (data a))) js)
                      (seq 0 d0) |})
  | _ => Raise IndexError
  end.

(** The shape [np.squeeze] leaves: every axis of length one is dropped. *)
Definition squeeze_shape (sh : list nat) : list nat :=
  List.filter (fun d => negb (d =? 1)) sh.

(** [a.T] *)
Definition transpose (a : ndarray) : result ndarray :=
  match shape a with
  | [] | [_] => Ok a
  | [r; c] =>
      Ok {| shape := [c; r];
            data := flat_map (fun j => map (fun i => mget c (data a) i j) (seq 0 r)) (seq 0 c) |}
  | _ => Raise Unmodelled
  end.

(** Sums are accumulated from zero, left to right (BLAS fixes no order). *)
Definition fsum (l : list F) : F := fold_left fadd l (fof_Z 0).

(** [a.dot(b)] for matrices and vectors. *)
Definition dot (a b : ndarray) : result ndarray :=
  match shape a, shape b with
  | [r; n], [m; c] =>
      if n =? m then
        Ok {| shape := [r; c];
              data := flat_map (fun i => map (fun j =>
                        fsum (map (fun k => fmul (mget n (data a) i k) (mget c (data b) k j)) (seq 0 n)))
                        (seq 0 c)) (seq 0 r) |}
      else Raise ValueError
  | [r; n], [m] =>
      if n =? m then
        Ok {| shape := [r];
              data := map (fun i =>
                        fsum (map (fun k => fmul (mget n (data a) i k) (nth k (data b) (fof_Z 0))) (seq 0 n)))
                        (seq 0 r) |}
      else Raise ValueError
  | [n], [m; c] =>
      if n =? m then
        Ok {| shape := [c];
              data := map (fun j =>
                        fsum (map (fun k => fmul (nth k (data a) (fof_Z 0)) (mget c (data b) k j)) (seq 0 n)))
                        (seq 0 c) |}
      else Raise ValueError
  | _, _ => Raise Unmodelled
  end.

(** [np.diag(v)] of a vector. *)
Definition diag (v : ndarray) : result ndarray :=
  match shape v with
  | [k] =>
      Ok {| shape := [k; k];
            data := flat_map (fun i => map (fun j =>
                      if i =? j then nth i (data v) (fof_Z 0) else fof_Z 0) (seq 0 k)) (seq 0 k) |}
  | _ => Raise Unmodelled
  end.

(** [np.reciprocal(s)]: elementwise [1 / x]; a zero gives an infinity, not
    an exception. *)
Definition reciprocal (v : ndarray) : ndarray :=
  {| shape := shape v; data := map (fun x => fdiv (fof_Z 1) x) (data v) |}.

(** [np.where(mask)[0]]: the positions that hold [True], ascending. *)
Fixpoint where_from (i : nat) (mask : list bool) : list nat :=
  match mask with
  | [] => []
  | b :: m => (if b then [i] else []) ++ where_from (1 + i) m
  end.

Definition np_where (mask : list bool) : list nat := where_from 0 mask.

(** [u[:, indices]], [s[indices]] and [v[indices, :]] for index lists that
    [np_where] produced (always in range). *)
Definition take_columns (u : ndarray) (indices : list nat) : result ndarray :=
  match shape u with
  | [r; c] =>
      Ok {| shape := [r; length indices];
            data := flat_map (fun i => map (fun j => mget c (data u) i j) indices) (seq 0 r) |}
  | _ => Raise IndexError
  end.

Definition take_entries (s : ndarray) (indices : list nat) : ndarray :=
  {| shape := [length indices]; data := map (fun i => nth i (data s) (fof_Z 0)) indices |}.

Definition take_rows (v : ndarray) (indices : list nat) : result ndarray :=
  match shape v with
  | [r; c] =>
      Ok {| shape := [length indices; c];
            data := flat_map (fun i => map (fun j => mget c (data v) i j) (seq 0 c)) indices |}
  | _ => Raise IndexError
  end.

(** [a[:, :, None, None]] *)
Definition expand_trailing (a : ndarray) : result ndarray :=
  match shape a with
  | [r; k] => Ok {| shape := [r; k; 1; 1]; data := data a |}
  | _ => Raise IndexError
  end.

(** The order numpy sorts floats in: ascending, NaN last. *)
Definition np_lt (a b : F) : bool := flt a b || (negb (fle b b) && fle a a).

(** [keys.argsort()].  numpy's default sort does not say in which order it
    leaves equal keys; this one keeps them in their original order. *)
Fixpoint insert_sorted (x : nat * F) (l : list (nat * F)) : list (nat * F) :=
  match l with
  | [] => [x]
  | y :: l' => if np_lt (snd y) (snd x) then y :: insert_sorted x l' else x :: y :: l'
  end.

Definition argsort (keys : list F) : list nat :=
  map fst (fold_right insert_sorted [] (combine (seq 0 (length keys)) keys)).

End Numpy.

(** *** The entries of the arrays these operations build *)

Section Entries.
Context {S : Scalar}.

Lemma nth_rows {A} (f : nat -> nat -> A) (r c : nat) (d : A) :
  forall a i j, i < r -> j < c ->
  nth (i * c + j) (flat_map (fun i => map (f i) (seq 0 c)) (seq a r)) d = f (a + i) j.
Proof.
  induction r as [|r IH]; intros a i j Hi Hj; [lia|].
  cbn [seq flat_map]. destruct i as [|i].
  - cbn [Nat.mul Nat.add]. rewrite app_nth1 by (by rewrite length_map, length_seq).
    rewrite (nth_indep _ d (f a 0)) by (by rewrite length_map, length_seq).
    rewrite (map_nth (f a)), seq_nth by done. by rewrite Nat.add_0_r.
  - rewrite app_nth2 by (rewrite length_map, length_seq; cbn; lia).
    rewrite length_map, length_seq.
    replace (Datatypes.S i * c + j - c) with (i * c + j) by (cbn; lia).
    rewrite IH by lia. f_equal. lia.
Qed.

Lemma dot_entry (a b m : ndarray) (r n c i j : nat) :
  shape a = [r; n] -> shape b = [n; c] -> dot a b = Ok m -> i < r -> j < c ->
  shape m = [r; c]
  /\ mget c (data m) i j
     = fsum (map (fun k => fmul (mget n (data a) i k) (mget c (data b) k j)) (seq 0 n)).
Proof.
  intros Ha Hb Hm Hi Hj. unfold dot in Hm. rewrite Ha, Hb, Nat.eqb_refl in Hm.
  injection Hm as <-. split; [done|]. unfold mget at 1. cbn [data].
  by rewrite (nth_rows (fun i j => fsum _)).
Qed.

Lemma transpose_entry (a t : ndarray) (r c i j : nat) :
  shape a = [r; c] -> transpose a = Ok t -> i < r -> j < c ->
  shape t = [c; r] /\ mget r (data t) j i = mget c (data a) i j.
Proof.
  intros Ha Ht Hi Hj. unfold transpose in Ht. rewrite Ha in Ht.
  injection Ht as <-. split; [done|]. unfold mget at 1. cbn [data].
  by rewrite (nth_rows (fun j i => mget c (data a) i j)).
Qed.

Lemma diag_entry (v d : ndarray) (k i j : nat) :
  shape v = [k] -> diag v = Ok d -> i < k -> j < k ->
  shape d = [k; k]
  /\ mget k (data d) i j = if i =? j then nth i (data v) (fof_Z 0) else fof_Z 0.
Proof.
  intros Hv Hd Hi Hj. unfold diag in Hd. rewrite Hv in Hd.
  injection Hd as <-. split; [done|]. unfold mget at 1. cbn [data].
  by rewrite (nth_rows (fun i j => if i =? j then _ else _)).
Qed.

End Entries.

(** ** The object store

    Python arrays and TT objects are heap objects.  The module aliases one
    TT object under several names and hands an array to a routine that may
    overwrite it, so both kinds of object live in an explicit store and are
    named by their locations. *)

(** Locations of arrays and of TT objects in the store. *)
Abbreviation loc := nat (only parsing).
Abbreviation tt_ref := nat (only parsing).

Section Store.
Context {S : Scalar}.

(** A [TT] object, reduced to the attribute this module reads and writes:
    [cores], a Python list of references to arrays. *)
Record tt_object := TTObject { cores : list loc }.

Record store := Store { arrays : list ndarray; tensors : list tt_object }.

Definition empty_store : store := {| arrays := []; tensors := [] |}.

(** Computations that read and write the store and may raise. *)
Definition M (A : Type) : Type := store -> result (A * store).

Definition ret {A} (a : A) : M A := fun h => Ok (a, h).

Definition bind {A B} (m : M A) (k : A -> M B) : M B :=
  fun h => match m h with
           | Ok (a, h') => k a h'
           | Raise e => Raise e
           end.

Definition lift {A} (r : result A) : M A :=
  fun h => match r with
           | Ok a => Ok (a, h)
           | Raise e => Raise e
           end.

Definition new_array (a : ndarray) : M loc :=
  fun h => Ok (length (arrays h), {| arrays := arrays h ++ [a]; tensors := tensors h |}).

Definition get_array (l : loc) : M ndarray :=
  fun h => match arrays h !! l with
           | Some a => Ok (a, h)
           | None => Raise Unmodelled
           end.

Definition set_array (l : loc) (a : ndarray) : M unit :=
  fun h => Ok (tt, {| arrays := <[l := a]> (arrays h); tensors := tensors h |}).

Definition new_tensor (t : tt_object) : M tt_ref :=
  fun h => Ok (length (tensors h), {| arrays := arrays h; tensors := tensors h ++ [t] |}).

Definition get_tensor (p : tt_ref) : M tt_object :=
  fun h => match tensors h !! p with
           | Some t => Ok (t, h)
           | None => Raise Unmodelled
           end.

Definition set_tensor (p : tt_ref) (t : tt_object) : M unit :=
  fun h => Ok (tt, {| arrays := arrays h; tensors := <[p := t]> (tensors h) |}).

End Store.

Declare Scope prog_scope.
Delimit Scope prog_scope with prog.
Notation "x <- m ;; k" := (bind m (fun x => k))
  (at level 62, m at next level, right associativity) : prog_scope.
Notation "m ;;; k" := (bind m (fun _ => k))
  (at level 62, right associativity) : prog_scope.
Open Scope prog_scope.

(** ** External routines *)

(** LAPACK, as scipy and numpy call it.  [gesvd r c a] is the thin SVD of
    the [r] by [c] matrix [a]: the factors U ([r] by [min r c]), s and Vh
    ([min r c] by [c]), row-major, or nothing when the iteration does not
    converge.  [gesvd_work r c a] is what the routine leaves in its input
    buffer when it is allowed to overwrite it.  [geev n a] gives the
    eigenvalues and the matrix of right eigenvectors (columns) of the [n] by
    [n] matrix [a], both complex. *)
Class Lapack {S : Scalar} := {
  gesvd : nat -> nat -> list F -> option (list F * list F * list F);
  gesvd_work : nat -> nat -> list F -> list F;
  geev : nat -> list F -> option (list (F * F) * list (F * F));
}.

(** The parts of scikit_tt the drivers call: [tdt.basis_decomposition],
    [tdt.hocur] and [TT.ortho_left].  A tensor train is passed as the list
    of its cores; each call may raise. *)
Class Transform {S : Scalar} := {
  data_matrix : Type;
  basis_list : Type;
  basis_decomposition : data_matrix -> basis_list -> result (list ndarray);
  hocur : data_matrix -> basis_list -> Z -> Z -> Z -> bool -> result (list ndarray);
  ortho_left : list ndarray -> option F -> bool -> result (list ndarray);
}.

(** ** The module *)

Section Tedmd.
Context {S : Scalar} {L : Lapack}.

(** A view: another array object on the buffer of [base]. *)
Record view := View { base : loc; vshape : list nat }.

(** [np.squeeze(a)] returns a view of [a]. *)
Definition np_squeeze (l : loc) : M view :=
  a <- get_array l ;;
  ret {| base := l; vshape := squeeze_shape (shape a) |}.

Definition view_value (w : view) : M ndarray :=
  a <- get_array (base w) ;;
  ret {| shape := vshape w; data := data a |}.

(** [linalg.svd(a, full_matrices=False, overwrite_a=True, check_finite=False,
    lapack_driver='gesvd')]: anything but a matrix is a ValueError; the
    buffer of [a] may be overwritten. *)
Definition linalg_svd (a : view) : M (ndarray * ndarray * ndarray) :=
  buf <- get_array (base a) ;;
  match vshape a with
  | [r; c] =>
      match gesvd r c (data buf) with
      | Some (u, s, vh) =>
          set_array (base a) {| shape := shape buf; data := gesvd_work r c (data buf) |} ;;;
          ret ({| shape := [r; r `min` c]; data := u |},
               {| shape := [r `min` c]; data := s |},
               {| shape := [r `min` c; c]; data := vh |})
      | None => lift (Raise LinAlgError)
      end
  | _ => lift (Raise ValueError)
  end.

(** [np.linalg.eig(m)]: a LinAlgError unless [m] is a square matrix with
    finite entries and the iteration converges. *)
Definition np_linalg_eig (m : ndarray) : result (list (F * F) * list (F * F)) :=
  match shape m with
  | [n; n'] =>
      if negb (n =? n') then Raise LinAlgError
      else if negb (forallb fisfinite (data m)) then Raise LinAlgError
      else match geev n (data m) with
           | Some wv => Ok wv
           | None => Raise LinAlgError
           end
  | _ => Raise LinAlgError
  end.

(** [s[0]] *)
Definition first_entry (s : ndarray) : result F :=
  match data s with
  | x :: _ => Ok x
  | [] => Raise IndexError
  end.

(** The positions [np.where(s / s[0] > threshold)[0]] keeps. *)
Definition retained (s : list F) (s0 threshold : F) : list nat :=
  np_where (map (fun x => flt threshold (fdiv x s0)) s).

(** The default of [_reduced_matrix]'s [threshold], [1e-3]. *)
Definition default_threshold : F := fdiv (fof_Z 1) (fof_Z 1000).

(** [v.dot(psi_y_last.T).dot(u).dot(np.diag(np.reciprocal(s)))] *)
Definition reduced_product (v y u s : ndarray) : result ndarray :=
  rbind (transpose y) (fun yT =>
  rbind (dot v yT) (fun a =>
  rbind (dot a u) (fun b =>
  rbind (diag (reciprocal s)) (fun d =>
  dot b d)))).

Definition _reduced_matrix (last_core : loc) (x_indices y_indices : list Z) (threshold : F)
  : M (ndarray * ndarray * ndarray * ndarray) :=
  (* extract last cores of psi_x and psi_y *)
  core <- get_array last_core ;;
  x_sel <- lift (getitem_axis1 core x_indices) ;;
  x_buf <- new_array x_sel ;;
  psi_x_last <- np_squeeze x_buf ;;
  y_sel <- lift (getitem_axis1 core y_indices) ;;
  y_buf <- new_array y_sel ;;
  psi_y_last <- np_squeeze y_buf ;;
  (* decompose last core of psi_x *)
  usv <- linalg_svd psi_x_last ;;
  let '(u, s, v) := usv in
  s0 <- lift (first_entry s) ;;
  let indices := retained (data s) s0 threshold in
  u <- lift (take_columns u indices) ;;
  let s := take_entries s indices in
  v <- lift (take_rows v indices) ;;
  (* construct reduced matrix *)
  y <- view_value psi_y_last ;;
  matrix <- lift (reduced_product v y u s) ;;
  ret (matrix, u, s, v).

End Tedmd.

Section Drivers.
Context {S : Scalar} {L : Lapack} {T : Transform}.

(** [x_indices] and [y_indices]: an index array, or a Python list of index
    arrays. *)
Inductive index_arg :=
| IndexArray (a : list Z)
| IndexList (l : list (list Z)).

(** What a driver returns: the pair [(eigenvalues, eigentensors)], either
    of one array and one TT object or of two lists. *)
Inductive amuset_result :=
| Unwrapped (eigenvalues : list F) (eigentensors : tt_ref)
| Lists (eigenvalues : list (list F)) (eigentensors : list tt_ref).

(** [l[i]], [l[-1]] and [l[-1] = a] on Python lists. *)
Definition getitem {A} (l : list A) (i : nat) : result A :=
  match l !! i with
  | Some a => Ok a
  | None => Raise IndexError
  end.

Definition last_item {A} (l : list A) : result A :=
  match l !! (length l - 1) with
  | Some a => Ok a
  | None => Raise IndexError
  end.

Definition set_last_item {A} (l : list A) (a : A) : result (list A) :=
  match l with
  | [] => Raise IndexError
  | _ => Ok (<[length l - 1 := a]> l)
  end.

(** The construction of a TT object from its cores, as the transform and
    the orthonormaliser leave it in the store. *)
Fixpoint new_arrays (cs : list ndarray) : M (list loc) :=
  match cs with
  | [] => ret []
  | c :: cs' => l <- new_array c ;; ls <- new_arrays cs' ;; ret (l :: ls)
  end.

Definition new_tt (cs : list ndarray) : M tt_ref :=
  ls <- new_arrays cs ;;
  new_tensor {| cores := ls |}.

(** [if not isinstance(x_indices, list): x_indices = [x_indices];
    y_indices = [y_indices]].  Both arguments are documented to have the
    same form; a call that mixes the two forms is not covered. *)
Definition as_index_lists (x_indices y_indices : index_arg)
  : result (list (list Z) * list (list Z)) :=
  match x_indices, y_indices with
  | IndexArray x, IndexArray y => Ok ([x], [y])
  | IndexList xs, IndexList ys => Ok (xs, ys)
  | _, _ => Raise Unmodelled
  end.

(** [np.abs(eigenvalues_reduced - 1)] on one (complex) eigenvalue. *)
Definition eigen_distance (z : F * F) : F :=
  fhypot (fsub (fst z) (fof_Z 1)) (snd z).

(** [np.real(eigenvalues_reduced[idx])] *)
Definition real_entries (w : list (F * F)) (idx : list nat) : list F :=
  map (fun j => fst (nth j w (fof_Z 0, fof_Z 0))) idx.

(** [np.real(eigenvectors_reduced[:, idx])] of an [n] by [n] matrix. *)
Definition real_columns (n : nat) (vecs : list (F * F)) (idx : list nat) : ndarray :=
  {| shape := [n; length idx];
     data := flat_map (fun i => map (fun j => fst (nth (i * n + j) vecs (fof_Z 0, fof_Z 0))) idx)
               (seq 0 n) |}.

(** [u.dot(np.diag(np.reciprocal(s))).dot(eigenvectors_reduced)[:, :, None, None]] *)
Definition eigen_core (u s eigenvectors_reduced : ndarray) : result ndarray :=
  rbind (diag (reciprocal s)) (fun d =>
  rbind (dot u d) (fun a =>
  rbind (dot a eigenvectors_reduced) expand_trailing)).

(** The body of the loop over the index sets, for index [i]. *)
Definition amuset_pair (psi : tt_ref) (last_core : loc) (x_indices y_indices : list (list Z))
    (i : nat) (acc : list (list F) * list tt_ref) : M (list (list F) * list tt_ref) :=
  let '(eigenvalues, eigentensors) := acc in
  x <- lift (getitem x_indices i) ;;
  y <- lift (getitem y_indices i) ;;
  (* compute reduced matrix *)
  musv <- _reduced_matrix last_core x y default_threshold ;;
  let '(matrix, u, s, v) := musv in
  (* solve reduced eigenvalue problem *)
  wv <- lift (np_linalg_eig matrix) ;;
  let '(eigenvalues_reduced, eigenvectors_reduced) := wv in
  let idx := argsort (map eigen_distance eigenvalues_reduced) in
  let eigenvectors_reduced :=
    real_columns (length eigenvalues_reduced) eigenvectors_reduced idx in
  let eigenvalues_reduced := real_entries eigenvalues_reduced idx in
  (* construct eigentensors *)
  let eigentensors_tmp := psi in
  core <- lift (eigen_core u s eigenvectors_reduced) ;;
  new_core <- new_array core ;;
  t <- get_tensor eigentensors_tmp ;;
  cs <- lift (set_last_item (cores t) new_core) ;;
  set_tensor eigentensors_tmp {| cores := cs |} ;;;
  (* append results *)
  ret (eigenvalues ++ [eigenvalues_reduced], eigentensors ++ [eigentensors_tmp]).

Fixpoint amuset_loop (psi : tt_ref) (last_core : loc) (x_indices y_indices : list (list Z))
    (range : list nat) (acc : list (list F) * list tt_ref) : M (list (list F) * list tt_ref) :=
  match range with
  | [] => ret acc
  | i :: range' =>
      acc' <- amuset_pair psi last_core x_indices y_indices i acc ;;
      amuset_loop psi last_core x_indices y_indices range' acc'
  end.

(** What both drivers do once [psi] is built and left-orthonormalised
    (lines 54-86 and 136-168 of the module are the same text). *)
Definition amuset_eigen (psi : tt_ref) (x_indices y_indices : index_arg) : M amuset_result :=
  (* extract last core *)
  t <- get_tensor psi ;;
  last_core <- lift (last_item (cores t)) ;;
  (* convert x_indices and y_indices to lists *)
  xy <- lift (as_index_lists x_indices y_indices) ;;
  let '(x_indices, y_indices) := xy in
  (* loop over all index sets *)
  acc <- amuset_loop psi last_core x_indices y_indices (seq 0 (length x_indices)) ([], []) ;;
  let '(eigenvalues, eigentensors) := acc in
  (* only return lists if more than one set of x-indices/y-indices was given *)
  if length x_indices =? 1 then
    ev <- lift (getitem eigenvalues 0) ;;
    et <- lift (getitem eigentensors 0) ;;
    ret (Unwrapped ev et)
  else ret (Lists eigenvalues eigentensors).

Definition amuset_hosvd (data : data_matrix) (x_indices y_indices : index_arg)
    (basis : basis_list) (threshold : F) (progress : bool) : M amuset_result :=
  (* construct transformed data tensor in TT format using direct approach *)
  psi <- lift (basis_decomposition data basis) ;;
  (* left-orthonormalization *)
  psi <- lift (ortho_left psi (Some threshold) progress) ;;
  psi <- new_tt psi ;;
  amuset_eigen psi x_indices y_indices.

Definition amuset_hocur (data : data_matrix) (x_indices y_indices : index_arg)
    (basis : basis_list) (max_rank multiplier : Z) (progress : bool) : M amuset_result :=
  (* construct transformed data tensor in TT format using HOCUR *)
  psi <- lift (hocur data basis max_rank 1 multiplier progress) ;;
  (* left-orthonormalization *)
  psi <- lift (ortho_left psi None progress) ;;
  psi <- new_tt psi ;;
  amuset_eigen psi x_indices y_indices.

(** The cores of a TT object, read out of a store. *)
Definition read_cores (h : store) (p : tt_ref) : option (list ndarray) :=
  t ← tensors h !! p;
  mapM (fun l => arrays h !! l) (cores t).

End Drivers.

(** ** What a call computes, and what it does to the store

    [_reduced_matrix] reads one array of the store, its last core, and adds
    two arrays, the copies that advanced indexing makes of the x-slice and
    the y-slice; the SVD overwrites the first of the two.  Everything it
    returns is a function of the contents of the last core. *)

Section Effects.
Context {S : Scalar} {L : Lapack}.

(** The singular value decomposition of the squeezed x-slice. *)
Definition slice_svd (xs : ndarray) : result (ndarray * ndarray * ndarray) :=
  match squeeze_shape (shape xs) with
  | [r; c] =>
      match gesvd r c (data xs) with
      | Some (u, s, vh) =>
          Ok ({| shape := [r; r `min` c]; data := u |},
              {| shape := [r `min` c]; data := s |},
              {| shape := [r `min` c; c]; data := vh |})
      | None => Raise LinAlgError
      end
  | _ => Raise ValueError
  end.

(** The x-slice buffer after the SVD. *)
Definition slice_after_svd (xs : ndarray) : ndarray :=
  match squeeze_shape (shape xs) with
  | [r; c] => {| shape := shape xs; data := gesvd_work r c (data xs) |}
  | _ => xs
  end.

(** Lines 204-210 on the factors [usv] and the squeezed y-slice [y]. *)
Definition truncate_and_reduce (usv : ndarray * ndarray * ndarray) (y : ndarray) (threshold : F)
  : result (ndarray * ndarray * ndarray * ndarray) :=
  let '(u, s, v) := usv in
  rbind (first_entry s) (fun s0 =>
  let indices := retained (data s) s0 threshold in
  rbind (take_columns u indices) (fun u =>
  let s := take_entries s indices in
  rbind (take_rows v indices) (fun v =>
  rbind (reduced_product v y u s) (fun matrix =>
  Ok (matrix, u, s, v))))).

(** The value [_reduced_matrix] returns when its last core holds [core]. *)
Definition reduced_value (core : ndarray) (x_indices y_indices : list Z) (threshold : F)
  : result (ndarray * ndarray * ndarray * ndarray) :=
  rbind (getitem_axis1 core x_indices) (fun xs =>
  rbind (getitem_axis1 core y_indices) (fun ys =>
  rbind (slice_svd xs) (fun usv =>
  truncate_and_reduce usv {| shape := squeeze_shape (shape ys); data := data ys |} threshold))).

(** The two arrays it leaves in the store. *)
Definition reduced_temporaries (core : ndarray) (x_indices y_indices : list Z) : list ndarray :=
  match getitem_axis1 core x_indices, getitem_axis1 core y_indices with
  | Ok xs, Ok ys => [slice_after_svd xs; ys]
  | _, _ => []
  end.

Lemma lookup_snoc {A} (l : list A) (a : A) : (l ++ [a]) !! length l = Some a.
Proof. rewrite lookup_app_r by lia. by rewrite Nat.sub_diag. Qed.

Lemma insert_snoc {A} (l : list A) (a b : A) : <[length l := b]> (l ++ [a]) = l ++ [b].
Proof. rewrite insert_app_r_alt by lia. by rewrite Nat.sub_diag. Qed.

Lemma lookup_snoc_at {A} (l : list A) (a : A) (n : nat) :
  n = length l -> (l ++ [a]) !! n = Some a.
Proof. intros ->. apply lookup_snoc. Qed.

(** One step of a computation, for each primitive. *)
Lemma bind_assoc {A B C} (m : M A) (f : A -> M B) (g : B -> M C) (h : store) :
  bind (bind m f) g h = bind m (fun a => bind (f a) g) h.
Proof. unfold bind. destruct (m h) as [[a h']|e]; done. Qed.

Lemma bind_ret {A B} (a : A) (k : A -> M B) (h : store) : bind (ret a) k h = k a h.
Proof. done. Qed.

Lemma bind_lift_ok {A B} (a : A) (k : A -> M B) (h : store) : bind (lift (Ok a)) k h = k a h.
Proof. done. Qed.

Lemma bind_lift_raise {A B} (e : exn) (k : A -> M B) (h : store) :
  bind (lift (Raise e)) k h = Raise e.
Proof. done. Qed.

Lemma bind_new_array {B} (a : ndarray) (k : loc -> M B) (h : store) :
  bind (new_array a) k h
  = k (length (arrays h)) {| arrays := arrays h ++ [a]; tensors := tensors h |}.
Proof. done. Qed.

Lemma bind_get_array {B} (l : loc) (a : ndarray) (k : ndarray -> M B) (h : store) :
  arrays h !! l = Some a -> bind (get_array l) k h = k a h.
Proof. intros Hl. unfold bind, get_array. by rewrite Hl. Qed.

Lemma bind_set_array {B} (l : loc) (a : ndarray) (k : unit -> M B) (h : store) :
  bind (set_array l a) k h = k tt {| arrays := <[l := a]> (arrays h); tensors := tensors h |}.
Proof. done. Qed.

Lemma bind_get_tensor {B} (p : tt_ref) (t : tt_object) (k : tt_object -> M B) (h : store) :
  tensors h !! p = Some t -> bind (get_tensor p) k h = k t h.
Proof. intros Hp. unfold bind, get_tensor. by rewrite Hp. Qed.

Lemma bind_set_tensor {B} (p : tt_ref) (t : tt_object) (k : unit -> M B) (h : store) :
  bind (set_tensor p t) k h = k tt {| arrays := arrays h; tensors := <[p := t]> (tensors h) |}.
Proof. done. Qed.

Lemma bind_new_tensor {B} (t : tt_object) (k : tt_ref -> M B) (h : store) :
  bind (new_tensor t) k h
  = k (length (tensors h)) {| arrays := arrays h; tensors := tensors h ++ [t] |}.
Proof. done. Qed.

Lemma reduced_matrix_run (h : store) (last_core : loc) (core : ndarray)
    (x_indices y_indices : list Z) (threshold : F) :
  arrays h !! last_core = Some core ->
  _reduced_matrix last_core x_indices y_indices threshold h =
  match reduced_value core x_indices y_indices threshold with
  | Ok r => Ok (r, {| arrays := arrays h ++ reduced_temporaries core x_indices y_indices;
                      tensors := tensors h |})
  | Raise e => Raise e
  end.
Proof.
  intros Hcore.
  unfold _reduced_matrix, reduced_value, reduced_temporaries.
  rewrite (bind_get_array _ _ _ _ Hcore).
  destruct (getitem_axis1 core x_indices) as [xs|e]; [|done].
  rewrite bind_lift_ok, bind_new_array.
  unfold np_squeeze at 1. rewrite bind_assoc.
  rewrite (bind_get_array _ xs) by apply lookup_snoc.
  rewrite bind_ret.
  destruct (getitem_axis1 core y_indices) as [ys|e]; [|done].
  rewrite bind_lift_ok, bind_new_array.
  unfold np_squeeze at 1. rewrite bind_assoc.
  rewrite (bind_get_array _ ys) by apply lookup_snoc.
  rewrite bind_ret.
  cbn [rbind arrays tensors].
  unfold linalg_svd at 1. rewrite bind_assoc.
  rewrite (bind_get_array _ xs)
    by (cbn [arrays base]; rewrite lookup_app_l by (rewrite length_app; cbn; lia);
        apply lookup_snoc).
  unfold slice_svd, slice_after_svd. cbn [vshape base].
  destruct (squeeze_shape (shape xs)) as [|r [|c [|? ?]]]; try done.
  destruct (gesvd r c (data xs)) as [[[u s] vh]|]; [|done].
  rewrite bind_assoc, bind_set_array, bind_ret.
  cbn [rbind arrays tensors]. unfold truncate_and_reduce.
  destruct (first_entry _) as [s0|e]; [|done].
  rewrite bind_lift_ok. cbn [rbind].
  destruct (take_columns _ _) as [u'|e]; [|done].
  rewrite bind_lift_ok. cbn [rbind].
  destruct (take_rows _ _) as [v'|e]; [|done].
  rewrite bind_lift_ok. cbn [rbind].
  unfold view_value at 1. rewrite bind_assoc.
  rewrite insert_app_l by (rewrite length_app; cbn; lia).
  rewrite insert_snoc.
  rewrite (bind_get_array _ ys)
    by (cbn [arrays base]; apply lookup_snoc_at; by rewrite !length_app).
  rewrite bind_ret. cbn [shape data].
  destruct (reduced_product _ _ _ _) as [m|e]; [|done].
  rewrite bind_lift_ok. unfold ret. by rewrite <- app_assoc.
Qed.

(** The eigenvalues and the new last core that one pass of the loop body
    computes when the last core holds [core]. *)
Definition pair_value (core : ndarray) (x y : list Z) : result (list F * ndarray) :=
  rbind (reduced_value core x y default_threshold) (fun musv =>
  let '(matrix, u, s, v) := musv in
  rbind (np_linalg_eig matrix) (fun wv =>
  let '(w, vecs) := wv in
  let idx := argsort (map eigen_distance w) in
  rbind (eigen_core u s (real_columns (length w) vecs idx)) (fun c =>
  Ok (real_entries w idx, c)))).

Lemma amuset_pair_run (h : store) (psi : tt_ref) (t : tt_object) (last_core : loc)
    (core : ndarray) (xs ys : list (list Z)) (i : nat) (evs : list (list F)) (ets : list tt_ref) :
  arrays h !! last_core = Some core ->
  tensors h !! psi = Some t ->
  amuset_pair psi last_core xs ys i (evs, ets) h =
  match getitem xs i with
  | Raise e => Raise e
  | Ok x =>
    match getitem ys i with
    | Raise e => Raise e
    | Ok y =>
      match pair_value core x y with
      | Raise e => Raise e
      | Ok (ev, c) =>
        let tmp := reduced_temporaries core x y in
        match set_last_item (cores t) (length (arrays h ++ tmp)) with
        | Raise e => Raise e
        | Ok cs =>
            Ok ((evs ++ [ev], ets ++ [psi]),
                {| arrays := (arrays h ++ tmp) ++ [c];
                   tensors := <[psi := {| cores := cs |}]> (tensors h) |})
        end
      end
    end
  end.
Proof.
  intros Hcore Hpsi. unfold amuset_pair, pair_value.
  destruct (getitem xs i) as [x|e]; [|done]. rewrite bind_lift_ok.
  destruct (getitem ys i) as [y|e]; [|done]. rewrite bind_lift_ok.
  unfold bind at 1. rewrite (reduced_matrix_run _ _ _ _ _ _ Hcore).
  destruct (reduced_value core x y default_threshold) as [[[[m u] s] v]|e]; [|done].
  cbn [rbind].
  destruct (np_linalg_eig m) as [[w vecs]|e]; [|done].
  rewrite bind_lift_ok. cbn [rbind].
  destruct (eigen_core _ _ _) as [c|e]; [|done].
  rewrite bind_lift_ok, bind_new_array. cbn [rbind].
  rewrite (bind_get_tensor _ t) by done.
  cbn [arrays tensors].
  destruct (set_last_item _ _) as [cs|e]; [|done].
  by rewrite bind_lift_ok, bind_set_tensor.
Qed.

Lemma set_last_item_snoc {A} (init : list A) (old a : A) :
  set_last_item (init ++ [old]) a = Ok (init ++ [a]).
Proof.
  unfold set_last_item. destruct (init ++ [old]) eqn:E.
  - by destruct init.
  - rewrite <- E, length_app. cbn.
    replace (length init + 1 - 1) with (length init) by lia.
    by rewrite insert_snoc.
Qed.

Lemma last_item_snoc {A} (init : list A) (a : A) : last_item (init ++ [a]) = Ok a.
Proof.
  unfold last_item. rewrite length_app. cbn.
  replace (length init + 1 - 1) with (length init) by lia.
  by rewrite lookup_snoc.
Qed.

Lemma last_item_inv {A} (l : list A) (a : A) :
  last_item l = Ok a -> exists init, l = init ++ [a].
Proof.
  unfold last_item. intros H.
  destruct (l !! (length l - 1)) as [b|] eqn:E; [|done].
  injection H as ->.
  destruct (decide (l = [])) as [->|Hne]; [done|].
  destruct (exists_last Hne) as [init [b ->]].
  rewrite length_app in E. cbn in E.
  replace (length init + 1 - 1) with (length init) in E by lia.
  rewrite lookup_snoc in E. injection E as ->. by exists init.
Qed.

(** The per-pair value of index [i]: defined when both index sets exist. *)
Definition pair_at (core : ndarray) (xs ys : list (list Z)) (i : nat)
    (r : list F * ndarray) : Prop :=
  exists x y, getitem xs i = Ok x /\ getitem ys i = Ok y /\ pair_value core x y = Ok r.

(** The loop: it never changes an array that was in the store before,
    every pass computes its pair's value from the contents of the last
    core alone, every pass appends the same reference [psi], and [psi]
    ends with the core of the last pass. *)
Lemma amuset_loop_run (psi : tt_ref) (last_core : loc) (core : ndarray)
    (xs ys : list (list Z)) (init : list loc) (range : list nat) :
  forall (acc : list (list F) * list tt_ref) (h : store) (old : loc) acc' h',
  arrays h !! last_core = Some core ->
  tensors h !! psi = Some {| cores := init ++ [old] |} ->
  amuset_loop psi last_core xs ys range acc h = Ok (acc', h') ->
  exists (results : list (list F * ndarray)) (new : loc),
    Forall2 (pair_at core xs ys) range results
    /\ acc' = (acc.1 ++ map fst results, acc.2 ++ map (fun _ => psi) results)
    /\ (forall l a, arrays h !! l = Some a -> arrays h' !! l = Some a)
    /\ tensors h' = <[psi := {| cores := init ++ [new] |}]> (tensors h)
    /\ (results = [] -> new = old)
    /\ (forall rs r, results = rs ++ [r] -> arrays h' !! new = Some r.2).
Proof.
  induction range as [|i range IH]; intros [evs ets] h old acc' h' Hcore Hpsi Hrun.
  - cbn in Hrun. unfold ret in Hrun. injection Hrun as <- <-.
    exists [], old. cbn. rewrite !app_nil_r.
    split_and!; [constructor|done|done| |done|].
    + symmetry. by apply list_insert_id.
    + intros [|??] ? ?; done.
  - cbn [amuset_loop] in Hrun. unfold bind at 1 in Hrun.
    rewrite (amuset_pair_run _ _ _ _ _ _ _ _ _ _ Hcore Hpsi) in Hrun.
    destruct (getitem xs i) as [x|e] eqn:Hx; [|done].
    destruct (getitem ys i) as [y|e] eqn:Hy; [|done].
    destruct (pair_value core x y) as [[ev c]|e] eqn:Hv; [|done].
    cbn zeta in Hrun. cbn [cores] in Hrun.
    rewrite set_last_item_snoc in Hrun.
    set (tmp := reduced_temporaries core x y) in *.
    set (h1 := {| arrays := (arrays h ++ tmp) ++ [c]; tensors := _ |}) in Hrun.
    assert (Hpsi_lt : psi < length (tensors h)) by (by eapply lookup_lt_Some).
    destruct (IH (evs ++ [ev], ets ++ [psi]) h1 (length (arrays h ++ tmp)) acc' h')
      as (results & new & Hres & Hacc & Hframe & Htens & Hnil & Hlast).
    + cbn. rewrite <- app_assoc. by apply lookup_app_l_Some.
    + cbn. by apply list_lookup_insert_eq.
    + done.
    + exists ((ev, c) :: results), new. cbn.
      split_and!.
      * constructor; [by exists x, y|done].
      * rewrite Hacc. cbn. by rewrite <- !app_assoc.
      * intros l a Hl. apply Hframe. cbn. rewrite <- app_assoc. by apply lookup_app_l_Some.
      * rewrite Htens. cbn. by rewrite list_insert_insert_eq.
      * done.
      * intros rs r Hrs. destruct results as [|r' results'].
        -- destruct rs as [|? [|??]]; try done. injection Hrs as <-.
           rewrite (Hnil eq_refl). apply Hframe. cbn. apply lookup_snoc.
        -- destruct rs as [|r0 rs']; [done|]. injection Hrs as <- Hrs.
           by apply (Hlast rs').
Qed.

End Effects.

(** ** The two drivers, taken together *)

Section Runs.
Context {S : Scalar} {L : Lapack} {T : Transform}.

(** Which driver is called, with the arguments that are its own. *)
Inductive driver :=
| Hosvd (threshold : F)
| Hocur (max_rank multiplier : Z).

Definition amuset (d : driver) (data : data_matrix) (x_indices y_indices : index_arg)
    (basis : basis_list) (progress : bool) : M amuset_result :=
  match d with
  | Hosvd threshold => amuset_hosvd data x_indices y_indices basis threshold progress
  | Hocur max_rank multiplier =>
      amuset_hocur data x_indices y_indices basis max_rank multiplier progress
  end.

(** The cores of the left-orthonormalised [psi] of a call. *)
Definition orthonormalized (d : driver) (data : data_matrix) (basis : basis_list)
    (progress : bool) : result (list ndarray) :=
  match d with
  | Hosvd threshold =>
      rbind (basis_decomposition data basis) (fun psi => ortho_left psi (Some threshold) progress)
  | Hocur max_rank multiplier =>
      rbind (hocur data basis max_rank 1 multiplier progress) (fun psi =>
      ortho_left psi None progress)
  end.

(** The results of a call, pair by pair, whichever form they come in. *)
Definition eigenvalue_arrays (res : amuset_result) : list (list F) :=
  match res with
  | Unwrapped ev _ => [ev]
  | Lists evs _ => evs
  end.

Definition eigentensor_refs (res : amuset_result) : list tt_ref :=
  match res with
  | Unwrapped _ et => [et]
  | Lists _ ets => ets
  end.

Definition is_unwrapped (res : amuset_result) : bool :=
  match res with
  | Unwrapped _ _ => true
  | Lists _ _ => false
  end.

Lemma new_arrays_run (cs : list ndarray) (h : store) :
  new_arrays cs h
  = Ok (seq (length (arrays h)) (length cs),
        {| arrays := arrays h ++ cs; tensors := tensors h |}).
Proof.
  revert h. induction cs as [|c cs IH]; intros h; cbn [new_arrays].
  - unfold ret. cbn. rewrite app_nil_r. by destruct h.
  - rewrite bind_new_array. unfold bind at 1. rewrite IH. cbn.
    unfold ret. rewrite length_app, <- app_assoc. cbn.
    by replace (length (arrays h) + 1) with (Datatypes.S (length (arrays h))) by lia.
Qed.

Lemma amuset_unfold (d : driver) data xi yi basis progress (h : store) :
  amuset d data xi yi basis progress h =
  match orthonormalized d data basis progress with
  | Ok cs =>
      amuset_eigen (length (tensors h)) xi yi
        {| arrays := arrays h ++ cs;
           tensors := tensors h ++ [{| cores := seq (length (arrays h)) (length cs) |}] |}
  | Raise e => Raise e
  end.
Proof.
  assert (Hnew : forall cs, bind (new_tt cs) (fun psi => amuset_eigen psi xi yi) h
    = amuset_eigen (length (tensors h)) xi yi
        {| arrays := arrays h ++ cs;
           tensors := tensors h ++ [{| cores := seq (length (arrays h)) (length cs) |}] |}).
  { intros cs. unfold new_tt. rewrite bind_assoc. unfold bind at 1.
    rewrite new_arrays_run. by rewrite bind_new_tensor. }
  destruct d as [threshold|max_rank multiplier]; cbn [amuset orthonormalized].
  - unfold amuset_hosvd.
    destruct (basis_decomposition data basis) as [psi|e]; [|done].
    rewrite bind_lift_ok. cbn [rbind].
    destruct (ortho_left psi (Some threshold) progress) as [cs|e]; [|done].
    rewrite bind_lift_ok. apply Hnew.
  - unfold amuset_hocur.
    destruct (hocur data basis max_rank 1 multiplier progress) as [psi|e]; [|done].
    rewrite bind_lift_ok. cbn [rbind].
    destruct (ortho_left psi None progress) as [cs|e]; [|done].
    rewrite bind_lift_ok. apply Hnew.
Qed.

(** A successful call, taken apart: the orthonormalised cores
    [init ++ [core]], the index sets, the per-pair values [results] (each a
    function of [core] and its pair alone), the one TT object [psi], and
    the location [new] of the core that [psi] ends with. *)
Lemma amuset_run (d : driver) data xi yi basis progress (h : store) res h' :
  amuset d data xi yi basis progress h = Ok (res, h') ->
  exists init core xs ys results new,
    orthonormalized d data basis progress = Ok (init ++ [core])
    /\ as_index_lists xi yi = Ok (xs, ys)
    /\ Forall2 (pair_at core xs ys) (seq 0 (length xs)) results
    /\ eigenvalue_arrays res = map fst results
    /\ eigentensor_refs res = map (fun _ => length (tensors h)) results
    /\ is_unwrapped res = (length xs =? 1)
    /\ (forall l a, (arrays h ++ init ++ [core]) !! l = Some a -> arrays h' !! l = Some a)
    /\ tensors h'
       = tensors h ++ [{| cores := seq (length (arrays h)) (length init) ++ [new] |}]
    /\ (results = [] -> new = length (arrays h) + length init)
    /\ (forall rs r, results = rs ++ [r] -> arrays h' !! new = Some r.2).
Proof.
  rewrite amuset_unfold.
  destruct (orthonormalized d data basis progress) as [cs|e]; [|done].
  set (psi := length (tensors h)).
  set (h0 := {| arrays := arrays h ++ cs; tensors := _ |}).
  unfold amuset_eigen.
  assert (Hpsi0 : tensors h0 !! psi = Some {| cores := seq (length (arrays h)) (length cs) |})
    by apply lookup_snoc.
  rewrite (bind_get_tensor _ _ _ _ Hpsi0). cbn [cores].
  destruct (last_item (seq (length (arrays h)) (length cs))) as [last_core|e] eqn:Hlast;
    [|by rewrite bind_lift_raise].
  rewrite bind_lift_ok.
  destruct (as_index_lists xi yi) as [[xs ys]|e] eqn:Hxy;
    [|by rewrite bind_lift_raise].
  rewrite bind_lift_ok.
  (* the last core *)
  destruct (decide (cs = [])) as [->|Hne]; [done|].
  destruct (exists_last Hne) as [init [core ->]].
  rewrite length_app in Hlast. cbn [length] in Hlast.
  rewrite seq_app in Hlast. cbn [seq] in Hlast.
  rewrite last_item_snoc in Hlast. injection Hlast as <-.
  assert (Hcore : arrays h0 !! (length (arrays h) + length init) = Some core).
  { cbn. rewrite app_assoc. apply lookup_snoc_at. by rewrite length_app. }
  assert (Hpsi : tensors h0 !! psi
                 = Some {| cores := seq (length (arrays h)) (length init)
                                    ++ [length (arrays h) + length init] |}).
  { rewrite Hpsi0. do 2 f_equal. rewrite length_app. cbn. by rewrite seq_app. }
  unfold bind at 1.
  destruct (amuset_loop _ _ _ _ _ _ _) as [[acc h1]|e] eqn:Hloop; [|done].
  destruct (amuset_loop_run _ _ _ _ _ _ _ _ _ _ _ _ Hcore Hpsi Hloop)
    as (results & new & Hres & -> & Hframe & Htens & Hnil & Hnew).
  cbn [fst snd app].
  assert (Htens' : tensors h1
    = tensors h ++ [{| cores := seq (length (arrays h)) (length init) ++ [new] |}]).
  { rewrite Htens. subst h0 psi. cbn. by rewrite insert_snoc. }
  assert (Hlen : length results = length xs).
  { apply Forall2_length in Hres. by rewrite length_seq in Hres. }
  destruct (length xs =? 1) eqn:Hone.
  - apply Nat.eqb_eq in Hone.
    destruct results as [|r [|??]]; cbn in Hlen; try lia.
    cbn. unfold ret. intros Hrun. injection Hrun as <- <-.
    exists init, core, xs, ys, [r], new.
    split_and!; try done. by rewrite Hone.
  - unfold ret. intros Hrun. injection Hrun as <- <-.
    exists init, core, xs, ys, results, new. by split_and!.
Qed.

End Runs.

(** What the caller of a driver can observe of its outcome: the eigenvalue
    arrays and, for each returned eigentensor, the cores it holds in the
    store the call leaves. *)
Definition observe {S : Scalar} (r : result (amuset_result * store))
  : result (list (list F) * list (option (list ndarray))) :=
  match r with
  | Ok (res, h) => Ok (eigenvalue_arrays res, map (read_cores h) (eigentensor_refs res))
  | Raise e => Raise e
  end.

(** ** A concrete setting on binary64

    To run the drivers, the external routines are given by tables: the SVD
    of a diagonal matrix with non-negative descending diagonal (identity
    factors), the eigen-decomposition of a diagonal matrix and of one matrix
    with a complex pair, and a transform that hands back a prepared tensor
    train. *)

Definition array64 (sh : list nat) (d : list float) : @ndarray float64 := @NDArray float64 sh d.

Definition is_diagonal (n : nat) (a : list float) : bool :=
  forallb (fun i => forallb (fun j =>
    (i =? j) || PrimFloat.eqb (@mget float64 n a i j) 0) (seq 0 n)) (seq 0 n).

Definition diagonal_of (n : nat) (a : list float) : list float :=
  map (fun i => @mget float64 n a i i) (seq 0 n).

Definition identity_matrix (n : nat) : list float :=
  flat_map (fun i => map (fun j => if i =? j then 1%float else 0%float) (seq 0 n)) (seq 0 n).

Fixpoint descendingb (l : list float) : bool :=
  match l with
  | x :: (y :: _) as l' => PrimFloat.leb y x && descendingb l'
  | _ => true
  end.

Definition table_gesvd (r c : nat) (a : list float)
  : option (list float * list float * list float) :=
  if (r =? c) && is_diagonal r a && descendingb (diagonal_of r a)
     && forallb (PrimFloat.leb 0) (diagonal_of r a)
  then Some (identity_matrix r, diagonal_of r a, identity_matrix r)
  else None.

(** A matrix with the eigenvalues 0, 1 + 2i and 1 - 2i. *)
Definition rotation_block : list float := [0; 0; 0;  0; 1; -2;  0; 2; 1]%float.

Definition same_floats (a b : list float) : bool :=
  (length a =? length b)
  && forallb (fun p => PrimFloat.Leibniz.eqb (fst p) (snd p)) (combine a b).

(** Eigenvectors are given up to scale (LAPACK normalises them). *)
Definition table_geev (n : nat) (a : list float)
  : option (list (float * float) * list (float * float)) :=
  if is_diagonal n a then
    Some (map (fun x => (x, 0%float)) (diagonal_of n a),
          map (fun x => (x, 0%float)) (identity_matrix n))
  else if (n =? 3) && same_floats a rotation_block then
    Some ([(0, 0); (1, 2); (1, -2)],
          [(1, 0); (0, 0); (0, 0);
           (0, 0); (1, 0); (1, 0);
           (0, 0); (0, -1); (0, 1)])%float
  else None.

Definition table_lapack : @Lapack float64 :=
  @Build_Lapack float64 table_gesvd (fun _ _ a => map (fun _ => 0%float) a) table_geev.

(** The "data matrix" is the tensor train itself, already left-orthonormal. *)
Definition prepared : @Transform float64 :=
  @Build_Transform float64 (list (@ndarray float64)) unit
    (fun d _ => Ok d) (fun d _ _ _ _ _ => Ok d) (fun cs _ _ => Ok cs).

Definition hosvd64 := @amuset_hosvd float64 table_lapack prepared.
Definition hocur64 := @amuset_hocur float64 table_lapack prepared.

(** The complex product [a * b]. *)
Definition cmul (a b : float * float) : float * float :=
  (fst a * fst b - snd a * snd b, fst a * snd b + snd a * fst b)%float.

(** [a v = v diag(w)], entry by entry and exactly: the columns of [v] are
    eigenvectors of [a] for the eigenvalues [w]. *)
Definition eigen_check (n : nat) (a : list float) (w v : list (float * float)) : bool :=
  forallb (fun i => forallb (fun j =>
    let lhs := fold_left (fun acc k =>
                 let p := cmul (@mget float64 n a i k, 0%float) (nth (k * n + j) v (0, 0)%float) in
                 (fst acc + fst p, snd acc + snd p)%float) (seq 0 n) (0, 0)%float in
    let rhs := cmul (nth j w (0, 0)%float) (nth (i * n + j) v (0, 0)%float) in
    PrimFloat.eqb (fst lhs) (fst rhs) && PrimFloat.eqb (snd lhs) (snd rhs))
    (seq 0 n)) (seq 0 n).

Example rotation_block_eigen :
  exists w v, table_geev 3 rotation_block = Some (w, v)
              /\ eigen_check 3 rotation_block w v = true
              /\ w = [(0, 0); (1, 2); (1, -2)]%float.
Proof. do 2 eexists. split; [reflexivity|]. split; reflexivity. Qed.

(** [u diag(s) vh = a], [u^T u = 1] and [vh vh^T = 1], entry by entry and
    exactly, for a square [a]. *)
Definition svd_check (n : nat) (a u s vh : list float) : bool :=
  match @diag float64 (array64 [n] s), @transpose float64 (array64 [n; n] u),
        @transpose float64 (array64 [n; n] vh) with
  | Ok d, Ok ut, Ok v =>
      match rbind (@dot float64 (array64 [n; n] u) d) (fun ud => @dot float64 ud (array64 [n; n] vh)),
            @dot float64 ut (array64 [n; n] u), @dot float64 (array64 [n; n] vh) v with
      | Ok usv, Ok utu, Ok vvt =>
          same_floats (data usv) a && same_floats (data utu) (identity_matrix n)
          && same_floats (data vvt) (identity_matrix n)
      | _, _, _ => false
      end
  | _, _, _ => false
  end.

(** The table's answers on the x-slices used below are decompositions of
    them. *)
Example table_gesvd_sound :
  Forall (fun '(n, a) =>
            exists u s vh, table_gesvd n n a = Some (u, s, vh) /\ svd_check n a u s vh = true)
    [(2, [2; 0; 0; 1]%float); (2, [1; 0; 0; 1]%float); (2, [0; 0; 0; 0]%float);
     (2, [0x1p-1074; 0; 0; 0]%float); (3, [1; 0; 0;  0; 1; 0;  0; 0; 1]%float)].
Proof. repeat constructor; do 3 eexists; (split; [reflexivity|]); vm_compute; reflexivity. Qed.

(** A tensor train of two cores whose last core has four snapshots:
    columns 0-1 are [diag(2, 1)], columns 2-3 the identity. *)
Definition first_core_2 : @ndarray float64 := array64 [1; 2; 1; 2] [1; 0; 0; 1]%float.
Definition last_core_2 : @ndarray float64 :=
  array64 [2; 4; 1; 1] [2; 0; 1; 0;
                        0; 1; 0; 1]%float.
Definition psi_2 : list (@ndarray float64) := [first_core_2; last_core_2].

(** On binary64 the default threshold is the float that the literal [1e-3]
    denotes. *)
Example default_threshold_float64 : @default_threshold float64 = 0x1.0624dd2f1a9fcp-10%float.
Proof. reflexivity. Qed.

(** The threshold the runs below pass to [amuset_hosvd] (the default,
    [1e-2]); the prepared transform ignores it. *)
Definition hosvd_threshold : float := (1 / 100)%float.

(** Every eigentensor a call returns is the one TT object it built: the
    loop appends the same reference in every pass. *)
Lemma amuset_eigentensors_one_object {S : Scalar} {L : Lapack} {T : Transform}
    (d : driver) data xi yi basis progress (h : store) res h' :
  amuset d data xi yi basis progress h = Ok (res, h') ->
  Forall (fun p => p = length (tensors h)) (eigentensor_refs res).
Proof.
  intros Hrun. destruct (amuset_run _ _ _ _ _ _ _ _ _ Hrun)
    as (init & core & xs & ys & results & new & _ & _ & _ & _ & -> & _).
  apply Forall_forall. intros p Hp. apply list_elem_of_In in Hp.
  by apply list_elem_of_fmap in Hp as (r & -> & _).
Qed.

(** Every eigentensor a call returns reads, in the store the call leaves,
    as the orthonormalised cores with the last one replaced by the core of
    the last pair. *)
Lemma amuset_eigentensors_hold_last_pair {S : Scalar} {L : Lapack} {T : Transform}
    (d : driver) data xi yi basis progress (h : store) res h' :
  amuset d data xi yi basis progress h = Ok (res, h') ->
  exists init core xs ys results,
    orthonormalized d data basis progress = Ok (init ++ [core])
    /\ as_index_lists xi yi = Ok (xs, ys)
    /\ Forall2 (pair_at core xs ys) (seq 0 (length xs)) results
    /\ eigenvalue_arrays res = map fst results
    /\ length (eigentensor_refs res) = length results
    /\ forall rs r, results = rs ++ [r] ->
         Forall (fun p => read_cores h' p = Some (init ++ [r.2])) (eigentensor_refs res).
Proof.
  intros Hrun. destruct (amuset_run _ _ _ _ _ _ _ _ _ Hrun)
    as (init & core & xs & ys & results & new & Ho & Hxy & Hres & Hev & Het & _
        & Hframe & Htens & _ & Hnew).
  exists init, core, xs, ys, results. split_and!; try done.
  - by rewrite Het, length_map.
  - intros rs r Hrs. rewrite Het. apply Forall_fmap, Forall_forall. intros r' _. cbn.
    unfold read_cores. rewrite Htens, lookup_snoc. cbn.
    apply mapM_Some, Forall2_app.
    + apply Forall2_same_length_lookup. split; [by rewrite length_seq|].
      intros i l c Hl Hc. apply lookup_seq in Hl as [-> _].
      apply Hframe. rewrite lookup_app_r by lia.
      replace (length (arrays h) + i - length (arrays h)) with i by lia.
      by apply lookup_app_l_Some.
    + repeat constructor. by apply (Hnew rs).
Qed.

(** C1 (the code departs from it).  Batch mode on the two pairs
    ([0,1], [2,3]) and ([2,3], [0,1]) of [psi_2]: the eigenvalue arrays are
    those of the two separate calls, but both returned eigentensors hold the
    last core written for the second pair, so the first differs from the
    eigentensor of the separate call on the first pair. *)
Theorem amuset_batch_first_eigentensor_overwritten :
  let core_1 := array64 [2; 2; 1; 1] [0; 0.5; 1; 0]%float in
  let core_2 := array64 [2; 2; 1; 1] [0; 1; 1; 0]%float in
  let x1 := [0; 1]%Z in let y1 := [2; 3]%Z in
  let x2 := [2; 3]%Z in let y2 := [0; 1]%Z in
  (observe (hosvd64 psi_2 (IndexArray x1) (IndexArray y1) tt hosvd_threshold false empty_store)
   = Ok ([[1; 0.5]%float], [Some [first_core_2; core_1]])
   /\ observe (hosvd64 psi_2 (IndexArray x2) (IndexArray y2) tt hosvd_threshold false empty_store)
      = Ok ([[1; 2]%float], [Some [first_core_2; core_2]])
   /\ observe (hosvd64 psi_2 (IndexList [x1; x2]) (IndexList [y1; y2]) tt hosvd_threshold false
                 empty_store)
      = Ok ([[1; 0.5]; [1; 2]]%float,
            [Some [first_core_2; core_2]; Some [first_core_2; core_2]]))
  /\ (observe (hocur64 psi_2 (IndexArray x1) (IndexArray y1) tt 1000 2 false empty_store)
      = Ok ([[1; 0.5]%float], [Some [first_core_2; core_1]])
      /\ observe (hocur64 psi_2 (IndexList [x1; x2]) (IndexList [y1; y2]) tt 1000 2 false
                    empty_store)
         = Ok ([[1; 0.5]; [1; 2]]%float,
               [Some [first_core_2; core_2]; Some [first_core_2; core_2]])).
Proof. vm_compute. repeat split. Qed.

(** C2, as stated, fails: called with a list of one pair, the driver
    returns one eigenvalue array and one TT object, exactly what it returns
    for the bare index arrays, and not two lists of length one. *)
Lemma one_pair_list_is_not_a_list_result :
  (exists h, hosvd64 psi_2 (IndexList [[0; 1]%Z]) (IndexList [[2; 3]%Z]) tt hosvd_threshold
               false empty_store
             = Ok (@Unwrapped float64 [1; 0.5]%float 0, h))
  /\ hosvd64 psi_2 (IndexList [[0; 1]%Z]) (IndexList [[2; 3]%Z]) tt hosvd_threshold false
       empty_store
     = hosvd64 psi_2 (IndexArray [0; 1]%Z) (IndexArray [2; 3]%Z) tt hosvd_threshold false
         empty_store.
Proof. split; [eexists|]; vm_compute; reflexivity. Qed.

(** C2, amended.  A driver called with a list of exactly one pair does what
    it does for the bare pair and returns one eigenvalue array and one TT
    eigentensor; it returns lists exactly when the list of pairs does not
    have length one. *)
Theorem amuset_result_form {S : Scalar} {L : Lapack} {T : Transform}
    (d : driver) data (x y : list Z) (xs ys : list (list Z)) basis progress (h : store) :
  amuset d data (IndexList [x]) (IndexList [y]) basis progress h
  = amuset d data (IndexArray x) (IndexArray y) basis progress h
  /\ match amuset d data (IndexArray x) (IndexArray y) basis progress h with
     | Ok (res, _) => is_unwrapped res = true
     | Raise _ => True
     end
  /\ match amuset d data (IndexList xs) (IndexList ys) basis progress h with
     | Ok (res, _) => is_unwrapped res = (length xs =? 1)
     | Raise _ => True
     end.
Proof.
  split_and!.
  - rewrite !amuset_unfold. by destruct (orthonormalized d data basis progress).
  - destruct (amuset d data (IndexArray x) (IndexArray y) basis progress h)
      as [[res h']|e] eqn:Hrun; [|done].
    destruct (amuset_run _ _ _ _ _ _ _ _ _ Hrun)
      as (? & ? & xs' & ys' & ? & ? & _ & Hxy & _ & _ & _ & -> & _).
    by injection Hxy as <- <-.
  - destruct (amuset d data (IndexList xs) (IndexList ys) basis progress h)
      as [[res h']|e] eqn:Hrun; [|done].
    destruct (amuset_run _ _ _ _ _ _ _ _ _ Hrun)
      as (? & ? & xs' & ys' & ? & ? & _ & Hxy & _ & _ & _ & -> & _).
    by injection Hxy as <- <-.
Qed.

(** [_reduced_matrix] changes no array that is in the store when it is
    called, the last core included: the SVD overwrites the copy that
    advanced indexing made.  What it returns is [reduced_value] of the
    contents of the last core. *)
Lemma reduced_matrix_frame {S : Scalar} {L : Lapack} (h : store) (last_core : loc)
    (x y : list Z) (threshold : F) r h' :
  _reduced_matrix last_core x y threshold h = Ok (r, h') ->
  (forall l a, arrays h !! l = Some a -> arrays h' !! l = Some a)
  /\ tensors h' = tensors h
  /\ exists core, arrays h !! last_core = Some core /\ reduced_value core x y threshold = Ok r.
Proof.
  intros Hrun.
  destruct (arrays h !! last_core) as [core|] eqn:Hcore.
  - rewrite (reduced_matrix_run _ _ _ _ _ _ Hcore) in Hrun.
    destruct (reduced_value core x y threshold) as [r'|e] eqn:Hv; [|done].
    injection Hrun as <- <-. cbn. split_and!; [|done|by exists core].
    intros l a Hl. by apply lookup_app_l_Some.
  - unfold _reduced_matrix, bind, get_array in Hrun. by rewrite Hcore in Hrun.
Qed.

(** The outcome of a computation that succeeds (and a given outcome when it
    does not). *)
Definition outcome {A} {S : Scalar} (r : result (A * store)) (otherwise : A * store)
  : A * store :=
  match r with
  | Ok p => p
  | Raise _ => otherwise
  end.

(** C10.  In every call of a driver that returns, the array captured as
    [last_core] after the orthonormalisation still holds the last core of
    the orthonormalised [psi] when the call returns, and so do the arrays of
    the other cores; [_reduced_matrix], on any store that holds this core,
    leaves it in place and returns a function of its contents; and the
    eigenvalue array of each pair is the value computed from this core and
    the pair's two index sets alone. *)
Theorem last_core_is_never_modified {S : Scalar} {L : Lapack} {T : Transform}
    (d : driver) data xi yi basis progress (h : store) res h' :
  amuset d data xi yi basis progress h = Ok (res, h') ->
  exists init core xs ys,
    orthonormalized d data basis progress = Ok (init ++ [core])
    /\ as_index_lists xi yi = Ok (xs, ys)
    /\ arrays h' !! (length (arrays h) + length init) = Some core
    /\ (forall j c, (init ++ [core]) !! j = Some c -> arrays h' !! (length (arrays h) + j) = Some c)
    /\ (forall g x y threshold r g',
          arrays g !! (length (arrays h) + length init) = Some core ->
          _reduced_matrix (length (arrays h) + length init) x y threshold g = Ok (r, g') ->
          arrays g' !! (length (arrays h) + length init) = Some core
          /\ reduced_value core x y threshold = Ok r)
    /\ Forall2 (fun i ev => exists x y c,
                  getitem xs i = Ok x /\ getitem ys i = Ok y /\ pair_value core x y = Ok (ev, c))
         (seq 0 (length xs)) (eigenvalue_arrays res).
Proof.
  intros Hrun. destruct (amuset_run _ _ _ _ _ _ _ _ _ Hrun)
    as (init & core & xs & ys & results & new & Ho & Hxy & Hres & Hev & _ & _ & Hframe & _).
  exists init, core, xs, ys. split_and!; try done.
  - apply Hframe. rewrite app_assoc. apply lookup_snoc_at. by rewrite length_app.
  - intros j c Hj. apply Hframe. rewrite lookup_app_r by lia.
    by replace (length (arrays h) + j - length (arrays h)) with j by lia.
  - intros g x y threshold r g' Hg Hred.
    destruct (reduced_matrix_frame _ _ _ _ _ _ _ Hred) as (Hfr & _ & core' & Hc & Hv).
    split; [by apply Hfr|]. rewrite Hg in Hc. by injection Hc as <-.
  - rewrite Hev. apply Forall2_fmap_r.
    eapply Forall2_impl; [|exact Hres].
    intros i [ev c] (x & y & ? & ? & ?). by exists x, y, c.
Qed.

(** The batch call on [psi_2]: the last core is array 1 of the store and
    holds [last_core_2] when the call returns. *)
Lemma last_core_is_never_modified_witness :
  let run := hosvd64 psi_2 (IndexList [[0; 1]; [2; 3]]%Z) (IndexList [[2; 3]; [0; 1]]%Z) tt
               hosvd_threshold false empty_store in
  let p := outcome run (@Lists float64 [] [], empty_store) in
  run = Ok p /\ arrays p.2 !! 1 = Some last_core_2.
Proof.
  cbv zeta. split; [vm_compute; reflexivity|].
  destruct (@last_core_is_never_modified float64 table_lapack prepared
              (@Hosvd float64 hosvd_threshold) psi_2
              (IndexList [[0; 1]; [2; 3]]%Z) (IndexList [[2; 3]; [0; 1]]%Z) tt false empty_store
              (outcome (hosvd64 psi_2 (IndexList [[0; 1]; [2; 3]]%Z)
                          (IndexList [[2; 3]; [0; 1]]%Z) tt hosvd_threshold false empty_store)
                 (@Lists float64 [] [], empty_store)).1
              (outcome (hosvd64 psi_2 (IndexList [[0; 1]; [2; 3]]%Z)
                          (IndexList [[2; 3]; [0; 1]]%Z) tt hosvd_threshold false empty_store)
                 (@Lists float64 [] [], empty_store)).2)
    as (init & core & xs & ys & Ho & _ & Hcore & _).
  - vm_compute. reflexivity.
  - cbn in Ho. injection Ho as Ho.
    by destruct init as [|c0 [|c1 [|??]]]; cbn in Ho.
Defined.

Lemma reduced_matrix_no_core {S : Scalar} {L : Lapack} (h : store) (last_core : loc)
    (x y : list Z) (threshold : F) :
  arrays h !! last_core = None ->
  _reduced_matrix last_core x y threshold h = Raise Unmodelled.
Proof. intros Hl. unfold _reduced_matrix, bind, get_array. by rewrite Hl. Qed.

(** One pass of the loop body that succeeds, taken apart. *)
Lemma amuset_pair_inv {S : Scalar} {L : Lapack} (psi : tt_ref) (last_core : loc)
    (xs ys : list (list Z)) (i : nat) acc (h : store) acc' h' (t : tt_object) :
  tensors h !! psi = Some t ->
  amuset_pair psi last_core xs ys i acc h = Ok (acc', h') ->
  exists core x y ev c cs,
    arrays h !! last_core = Some core
    /\ getitem xs i = Ok x /\ getitem ys i = Ok y
    /\ pair_value core x y = Ok (ev, c)
    /\ set_last_item (cores t) (length (arrays h ++ reduced_temporaries core x y)) = Ok cs
    /\ acc' = (acc.1 ++ [ev], acc.2 ++ [psi])
    /\ arrays h' = (arrays h ++ reduced_temporaries core x y) ++ [c]
    /\ tensors h' = <[psi := {| cores := cs |}]> (tensors h).
Proof.
  intros Hpsi Hrun. destruct acc as [evs ets].
  destruct (arrays h !! last_core) as [core|] eqn:Hcore.
  - rewrite (amuset_pair_run _ _ _ _ _ _ _ _ _ _ Hcore Hpsi) in Hrun.
    destruct (getitem xs i) as [x|e] eqn:Hx; [|done].
    destruct (getitem ys i) as [y|e] eqn:Hy; [|done].
    destruct (pair_value core x y) as [[ev c]|e] eqn:Hv; [|done].
    cbn zeta in Hrun.
    destruct (set_last_item _ _) as [cs|e] eqn:Hcs; [|done].
    injection Hrun as <- <-. exists core, x, y, ev, c, cs. by split_and!.
  - unfold amuset_pair in Hrun.
    destruct (getitem xs i) as [x|e]; [|done]. rewrite bind_lift_ok in Hrun.
    destruct (getitem ys i) as [y|e]; [|done]. rewrite bind_lift_ok in Hrun.
    unfold bind at 1 in Hrun. by rewrite reduced_matrix_no_core in Hrun.
Qed.

Lemma eigen_core_inv {S : Scalar} (u s w c : ndarray) :
  eigen_core u s w = Ok c ->
  exists d a b r k,
    diag (reciprocal s) = Ok d /\ dot u d = Ok a /\ dot a w = Ok b
    /\ shape b = [r; k] /\ c = {| shape := [r; k; 1; 1]; data := data b |}.
Proof.
  unfold eigen_core. intros H.
  destruct (diag (reciprocal s)) as [d|e] eqn:Hd; [|done]. cbn [rbind] in H.
  destruct (dot u d) as [a|e] eqn:Ha; [|done]. cbn [rbind] in H.
  destruct (dot a w) as [b|e] eqn:Hb; [|done]. cbn [rbind] in H.
  unfold expand_trailing in H.
  destruct (shape b) as [|r [|k [|? ?]]] eqn:Hsh; try done.
  injection H as <-. by exists d, a, b, r, k.
Qed.


(** The pass for the pair ([0,1], [2,3]) on the store that holds [psi_2]. *)
Definition store_2 : @store float64 :=
  {| arrays := psi_2; tensors := [{| cores := [0; 1] |}] |}.




Lemma where_from_nil (i : nat) (mask : list bool) :
  where_from i mask = [] <-> Forall (fun b => b = false) mask.
Proof.
  revert i. induction mask as [|b mask IH]; intros i; cbn.
  - split; [constructor|done].
  - destruct b; cbn.
    + split; [done|]. by inversion 1.
    + rewrite IH. split; [by constructor|]. by inversion 1.
Qed.

(** The filter keeps nothing exactly when no ratio exceeds the threshold. *)
Lemma retained_nil {S : Scalar} (s : list F) (s0 threshold : F) :
  retained s s0 threshold = [] <-> Forall (fun x => flt threshold (fdiv x s0) = false) s.
Proof.
  unfold retained, np_where. rewrite where_from_nil, Forall_fmap. done.
Qed.

Lemma flat_map_nil {A B} (l : list A) (f : A -> list B) :
  (forall a, f a = []) -> flat_map f l = [].
Proof. intros Hf. induction l as [|a l IH]; cbn; [done|]. by rewrite Hf, IH. Qed.

(** When the filter keeps nothing, [_reduced_matrix] goes on and returns
    empty arrays. *)
Lemma reduced_matrix_of_empty_filter {S : Scalar} {L : Lapack} (h : store) (last_core : loc)
    (core : ndarray) (x y : list Z) (threshold : F) (xs ys : ndarray) (r c : nat)
    (U s V : list F) (s0 : F) (rest : list F) :
  arrays h !! last_core = Some core ->
  getitem_axis1 core x = Ok xs ->
  getitem_axis1 core y = Ok ys ->
  squeeze_shape (shape xs) = [r; c] ->
  squeeze_shape (shape ys) = [r; c] ->
  gesvd r c (data xs) = Some (U, s, V) ->
  s = s0 :: rest ->
  retained s s0 threshold = [] ->
  exists h',
    _reduced_matrix last_core x y threshold h
    = Ok (({| shape := [0; 0]; data := [] |},
           {| shape := [r; 0]; data := [] |},
           {| shape := [0]; data := [] |},
           {| shape := [0; c]; data := [] |}), h').
Proof.
  intros Hcore Hxs Hys Hsx Hsy Hsvd -> Hret.
  rewrite (reduced_matrix_run _ _ _ _ _ _ Hcore).
  unfold reduced_value. rewrite Hxs, Hys. cbn [rbind].
  unfold slice_svd. rewrite Hsx, Hsvd, Hsy. cbn [rbind].
  unfold truncate_and_reduce, first_entry. cbn [data rbind].
  rewrite Hret.
  unfold take_columns at 1, take_rows at 1. cbn [shape rbind length map flat_map].
  rewrite (flat_map_nil (seq 0 r)) by done.
  unfold reduced_product, transpose. cbn [shape rbind].
  unfold dot at 1. cbn [shape]. rewrite Nat.eqb_refl. cbn [rbind seq flat_map].
  unfold dot at 1. cbn [shape]. rewrite Nat.eqb_refl. cbn [rbind seq flat_map].
  unfold diag, reciprocal, take_entries. cbn [shape rbind length seq flat_map map].
  unfold dot at 1. cbn [shape Nat.eqb rbind seq flat_map].
  by eexists.
Qed.

(** C4, as stated, fails: with the threshold 1 no ratio of the singular
    values 2 and 1 exceeds it, and [_reduced_matrix] returns four empty
    arrays without raising. *)
Lemma empty_filter_returns_empty_matrix :
  exists h',
    @_reduced_matrix float64 table_lapack 1 [0; 1]%Z [2; 3]%Z 1%float store_2
    = Ok ((array64 [0; 0] [], array64 [2; 0] [], array64 [0] [], array64 [0; 2] []), h').
Proof. eexists. vm_compute. reflexivity. Qed.

(** C4, amended.  When every ratio of a singular value to the largest one
    is at or below the threshold (the test [ratio > threshold] fails for
    each), [_reduced_matrix] raises nothing: it returns the empty 0 by 0
    reduced matrix, [u] with no column, an empty [s] and [v] with no row. *)
Theorem empty_filter_is_not_an_error {S : Scalar} {L : Lapack} (h : store) (last_core : loc)
    (core : ndarray) (x y : list Z) (threshold : F) (xs ys : ndarray) (r c : nat)
    (U s V : list F) (s0 : F) (rest : list F) :
  arrays h !! last_core = Some core ->
  getitem_axis1 core x = Ok xs ->
  getitem_axis1 core y = Ok ys ->
  squeeze_shape (shape xs) = [r; c] ->
  squeeze_shape (shape ys) = [r; c] ->
  gesvd r c (data xs) = Some (U, s, V) ->
  s = s0 :: rest ->
  (forall i x, s !! i = Some x -> flt threshold (fdiv x s0) = false) ->
  retained s s0 threshold = []
  /\ exists h',
       _reduced_matrix last_core x y threshold h
       = Ok (({| shape := [0; 0]; data := [] |},
              {| shape := [r; 0]; data := [] |},
              {| shape := [0]; data := [] |},
              {| shape := [0; c]; data := [] |}), h').
Proof.
  intros Hcore Hxs Hys Hsx Hsy Hsvd Hs Hall.
  assert (Hret : retained s s0 threshold = []).
  { apply retained_nil, Forall_lookup. exact Hall. }
  split; [exact Hret|].
  by eapply reduced_matrix_of_empty_filter.
Qed.

Lemma empty_filter_is_not_an_error_witness :
  let xs := array64 [2; 2; 1; 1] [2; 0; 0; 1]%float in
  let ys := array64 [2; 2; 1; 1] [1; 0; 0; 1]%float in
  (arrays store_2 !! 1 = Some last_core_2
   /\ @getitem_axis1 float64 last_core_2 [0; 1]%Z = Ok xs
   /\ @getitem_axis1 float64 last_core_2 [2; 3]%Z = Ok ys
   /\ @gesvd float64 table_lapack 2 2 (data xs)
      = Some (identity_matrix 2, [2; 1]%float, identity_matrix 2)
   /\ (1 <? 2 / 2)%float = false /\ (1 <? 1 / 2)%float = false)
  /\ @retained float64 [2; 1]%float 2%float 1%float = [].
Proof.
  cbv zeta. split; [by vm_compute|].
  apply (@empty_filter_is_not_an_error float64 table_lapack store_2 1 last_core_2
           [0; 1]%Z [2; 3]%Z 1%float
           (array64 [2; 2; 1; 1] [2; 0; 0; 1]%float)
           (array64 [2; 2; 1; 1] [1; 0; 0; 1]%float) 2 2
           (identity_matrix 2) [2; 1]%float (identity_matrix 2) 2%float [1%float]);
    try reflexivity.
  intros [|[|i]] v Hv; cbn in Hv; try done; by injection Hv as <-.
Defined.

(** ** Facts about binary64 comparisons

    From the specification of the primitive floats: the order of two floats
    is decided on their sign, exponent and mantissa, and every comparison
    with NaN is false. *)

Ltac sf_cases :=
  repeat match goal with
  | f : spec_float |- _ => destruct f as [[]|[]| |[] ? ?]
  end; cbn in *; try congruence.

Ltac cmp_cases :=
  repeat match goal with
  | H : context [Z.compare ?a ?b] |- _ => destruct (Z.compare_spec a b); subst; cbn in H
  | |- context [Z.compare ?a ?b] => destruct (Z.compare_spec a b); subst; cbn
  | H : context [Pos.compare_cont Eq ?a ?b] |- _ =>
      change (Pos.compare_cont Eq a b) with (Pos.compare a b) in H;
      destruct (Pos.compare_spec a b); subst; cbn in H
  | |- context [Pos.compare_cont Eq ?a ?b] =>
      change (Pos.compare_cont Eq a b) with (Pos.compare a b);
      destruct (Pos.compare_spec a b); subst; cbn
  end; try congruence; try lia.

Lemma SFcompare_antisym (a b : spec_float) :
  SFcompare b a = option_map CompOpp (SFcompare a b).
Proof. sf_cases; cmp_cases. Qed.

Lemma SFcompare_le_lt_trans (a b c : spec_float) :
  SFcompare a b = Some Lt \/ SFcompare a b = Some Eq ->
  SFcompare b c = Some Lt -> SFcompare a c = Some Lt.
Proof. intros [H|H] H'; sf_cases; cmp_cases. Qed.

Lemma SFcompare_defined (a b : spec_float) :
  SFcompare a a <> None -> SFcompare b b <> None -> SFcompare a b <> None.
Proof. sf_cases. Qed.

Lemma float_ltb_true (a b : float) :
  PrimFloat.ltb a b = true <-> SFcompare (Prim2SF a) (Prim2SF b) = Some Lt.
Proof.
  rewrite FloatAxioms.ltb_spec. unfold SFltb.
  destruct (SFcompare _ _) as [[]|]; split; congruence.
Qed.

Lemma float_leb_true (a b : float) :
  PrimFloat.leb a b = true
  <-> SFcompare (Prim2SF a) (Prim2SF b) = Some Lt \/ SFcompare (Prim2SF a) (Prim2SF b) = Some Eq.
Proof.
  rewrite FloatAxioms.leb_spec. unfold SFleb.
  destruct (SFcompare _ _) as [[]|]; split; try congruence; auto; intros [?|?]; congruence.
Qed.

Lemma float_le_lt_trans (a b c : float) :
  PrimFloat.leb a b = true -> PrimFloat.ltb b c = true -> PrimFloat.ltb a c = true.
Proof.
  rewrite float_leb_true, !float_ltb_true. apply SFcompare_le_lt_trans.
Qed.

Lemma float_lt_asym (a b : float) :
  PrimFloat.ltb a b = true -> PrimFloat.ltb b a = false.
Proof.
  rewrite float_ltb_true. intros H.
  destruct (PrimFloat.ltb b a) eqn:E; [|done].
  apply float_ltb_true in E. rewrite SFcompare_antisym, H in E. done.
Qed.

Lemma float_le_total (a b : float) :
  PrimFloat.leb a a = true -> PrimFloat.leb b b = true ->
  PrimFloat.ltb b a = false -> PrimFloat.leb a b = true.
Proof.
  rewrite !float_leb_true. intros Ha Hb Hlt.
  assert (Hd : SFcompare (Prim2SF a) (Prim2SF b) <> None).
  { apply SFcompare_defined; intros E; rewrite E in *; by destruct Ha, Hb. }
  destruct (SFcompare (Prim2SF a) (Prim2SF b)) as [[]|] eqn:E; auto; [|done].
  assert (PrimFloat.ltb b a = true); [|congruence].
  apply float_ltb_true. by rewrite SFcompare_antisym, E.
Qed.

Lemma float_ltb_nan (t : float) : PrimFloat.ltb t nan = false.
Proof.
  rewrite FloatAxioms.ltb_spec. change (Prim2SF nan) with S754_nan.
  unfold SFltb. by destruct (Prim2SF t) as [[]|[]| |[] ? ?].
Qed.

(** A float that compares equal to zero is [0] or [-0]. *)
Lemma float_eqb_zero (x : float) :
  PrimFloat.eqb x 0 = true -> x = 0%float \/ x = (-0)%float.
Proof.
  rewrite FloatAxioms.eqb_spec. change (Prim2SF 0) with (S754_zero false).
  intros H. rewrite <- (SF2Prim_Prim2SF x).
  destruct (Prim2SF x) as [[]|[]| |[] ? ?]; cbn in H; try done; auto.
Qed.

(** Zero divided by zero is NaN, which exceeds no threshold. *)
Lemma float_zero_ratio (x s0 t : float) :
  PrimFloat.eqb x 0 = true -> PrimFloat.eqb s0 0 = true ->
  PrimFloat.ltb t (x / s0) = false.
Proof.
  intros Hx Hs.
  destruct (float_eqb_zero _ Hx) as [->| ->], (float_eqb_zero _ Hs) as [->| ->];
    apply float_ltb_nan.
Qed.

(** Two last cores with a degenerate x-slice (columns 0 and 1): all zero,
    and [diag(2^-1074, 0)]; columns 2 and 3 are the identity. *)
Definition last_core_zero : @ndarray float64 :=
  array64 [2; 4; 1; 1] [0; 0; 1; 0;
                        0; 0; 0; 1]%float.
Definition last_core_tiny : @ndarray float64 :=
  array64 [2; 4; 1; 1] [0x1p-1074; 0; 1; 0;
                        0;         0; 0; 1]%float.

Definition store_of (core : @ndarray float64) : @store float64 :=
  {| arrays := [first_core_2; core]; tensors := [{| cores := [0; 1] |}] |}.

(** C3, as stated, fails.  On the all-zero x-slice (singular values 0, 0)
    [_reduced_matrix] returns four empty arrays, and on the x-slice with
    the singular values 2^-1074 and 0 it returns the 1 by 1 matrix
    [[inf]]; it raises in neither case. *)
Lemma degenerate_slice_returns_without_error :
  (@gesvd float64 table_lapack 2 2 [0; 0; 0; 0]%float
   = Some (identity_matrix 2, [0; 0]%float, identity_matrix 2)
   /\ exists h',
        @_reduced_matrix float64 table_lapack 1 [0; 1]%Z [2; 3]%Z (@default_threshold float64)
          (store_of last_core_zero)
        = Ok ((array64 [0; 0] [], array64 [2; 0] [], array64 [0] [], array64 [0; 2] []), h'))
  /\ (@gesvd float64 table_lapack 2 2 [0x1p-1074; 0; 0; 0]%float
      = Some (identity_matrix 2, [0x1p-1074; 0]%float, identity_matrix 2)
      /\ exists h',
           @_reduced_matrix float64 table_lapack 1 [0; 1]%Z [2; 3]%Z (@default_threshold float64)
             (store_of last_core_tiny)
           = Ok ((array64 [1; 1] [infinity], array64 [2; 1] [1; 0]%float,
                  array64 [1] [0x1p-1074]%float, array64 [1; 2] [1; 0]%float), h')).
Proof.
  split; (split; [reflexivity|]); eexists; vm_compute; reflexivity.
Qed.

(** C3, amended.  When every singular value of the x-slice is zero,
    [_reduced_matrix] raises nothing: each ratio [s / s[0]] is NaN and fails
    the threshold test, whatever the threshold, and the function returns the
    empty 0 by 0 reduced matrix, [u] with no column, an empty [s] and [v]
    with no row. *)
Theorem zero_singular_values_are_not_an_error {L : @Lapack float64}
    (h : @store float64) (last_core : loc) (core : @ndarray float64) (x y : list Z)
    (threshold : float) (xs ys : @ndarray float64) (r c : nat) (U s V : list float)
    (s0 : float) (rest : list float) :
  arrays h !! last_core = Some core ->
  getitem_axis1 core x = Ok xs ->
  getitem_axis1 core y = Ok ys ->
  squeeze_shape (shape xs) = [r; c] ->
  squeeze_shape (shape ys) = [r; c] ->
  @gesvd float64 L r c (data xs) = Some (U, s, V) ->
  s = s0 :: rest ->
  (forall i v, s !! i = Some v -> PrimFloat.eqb v 0 = true) ->
  (forall i v, s !! i = Some v -> PrimFloat.ltb threshold (v / s0) = false)
  /\ exists h',
       @_reduced_matrix float64 L last_core x y threshold h
       = Ok ((array64 [0; 0] [], array64 [r; 0] [], array64 [0] [], array64 [0; c] []), h').
Proof.
  intros Hcore Hxs Hys Hsx Hsy Hsvd Hs Hzero.
  assert (Hs0 : PrimFloat.eqb s0 0 = true) by (apply (Hzero 0); by rewrite Hs).
  assert (Hall : forall i v, s !! i = Some v -> PrimFloat.ltb threshold (v / s0) = false).
  { intros i v Hv. apply float_zero_ratio; [by eapply Hzero|done]. }
  split; [exact Hall|].
  eapply (@reduced_matrix_of_empty_filter float64); try done.
  apply (@retained_nil float64), Forall_lookup. exact Hall.
Qed.

Lemma zero_singular_values_are_not_an_error_witness :
  let xs := array64 [2; 2; 1; 1] [0; 0; 0; 0]%float in
  let ys := array64 [2; 2; 1; 1] [1; 0; 0; 1]%float in
  (arrays (store_of last_core_zero) !! 1 = Some last_core_zero
   /\ @getitem_axis1 float64 last_core_zero [0; 1]%Z = Ok xs
   /\ @getitem_axis1 float64 last_core_zero [2; 3]%Z = Ok ys
   /\ @gesvd float64 table_lapack 2 2 (data xs)
      = Some (identity_matrix 2, [0; 0]%float, identity_matrix 2))
  /\ exists h',
       @_reduced_matrix float64 table_lapack 1 [0; 1]%Z [2; 3]%Z (@default_threshold float64)
         (store_of last_core_zero)
       = Ok ((array64 [0; 0] [], array64 [2; 0] [], array64 [0] [], array64 [0; 2] []), h').
Proof.
  cbv zeta. split; [by vm_compute|].
  apply (@zero_singular_values_are_not_an_error table_lapack (store_of last_core_zero) 1
           last_core_zero [0; 1]%Z [2; 3]%Z (@default_threshold float64)
           (array64 [2; 2; 1; 1] [0; 0; 0; 0]%float)
           (array64 [2; 2; 1; 1] [1; 0; 0; 1]%float) 2 2
           (identity_matrix 2) [0; 0]%float (identity_matrix 2) 0%float [0%float]);
    try reflexivity.
  intros [|[|i]] v Hv; cbn in Hv; try done; by injection Hv as <-.
Defined.

(** ** The threshold test *)

Lemma where_from_length_le (i j : nat) (mask1 mask2 : list bool) :
  Forall2 (fun b1 b2 => b2 = true -> b1 = true) mask1 mask2 ->
  length (where_from j mask2) <= length (where_from i mask1).
Proof.
  intros H. revert i j. induction H as [|b1 b2 m1 m2 Hb _ IH]; intros i j; cbn; [lia|].
  rewrite !length_app. specialize (IH (Datatypes.S i) (Datatypes.S j)).
  destruct b2; [rewrite Hb by done|destruct b1]; cbn; lia.
Qed.

(** A threshold test that is harder to pass keeps fewer positions. *)
Lemma retained_length_antitone {S : Scalar} (s : list F) (s0 t1 t2 : F) :
  (forall r, flt t2 r = true -> flt t1 r = true) ->
  length (retained s s0 t2) <= length (retained s s0 t1).
Proof.
  intros Ht. unfold retained, np_where. apply where_from_length_le.
  apply Forall2_fmap, Forall2_same_length_lookup. split; [done|].
  intros i a b Ha Hb. rewrite Ha in Hb. injection Hb as <-. apply Ht.
Qed.

(** The shape of the [u] that [_reduced_matrix] returns: as many columns as
    positions pass the threshold test on the singular values of the
    squeezed x-slice. *)
Lemma reduced_value_rank {S : Scalar} {L : Lapack} (core : ndarray) (x y : list Z)
    (threshold : F) m u s v :
  reduced_value core x y threshold = Ok (m, u, s, v) ->
  exists xs r c U s_all V s0,
    getitem_axis1 core x = Ok xs
    /\ squeeze_shape (shape xs) = [r; c]
    /\ gesvd r c (data xs) = Some (U, s_all, V)
    /\ first_entry {| shape := [r `min` c]; data := s_all |} = Ok s0
    /\ shape u = [r; length (retained s_all s0 threshold)]
    /\ s = take_entries {| shape := [r `min` c]; data := s_all |} (retained s_all s0 threshold).
Proof.
  unfold reduced_value. intros H.
  destruct (getitem_axis1 core x) as [xs|e] eqn:Hxs; [|done]. cbn [rbind] in H.
  destruct (getitem_axis1 core y) as [ys|e] eqn:Hys; [|done]. cbn [rbind] in H.
  unfold slice_svd in H.
  destruct (squeeze_shape (shape xs)) as [|r [|c [|? ?]]] eqn:Hsx; try done.
  destruct (gesvd r c (data xs)) as [[[U s_all] V]|] eqn:Hsvd; [|done].
  cbn [rbind] in H. unfold truncate_and_reduce in H.
  destruct (first_entry _) as [s0|e] eqn:Hs0; [|done]. cbn [rbind data] in H.
  unfold take_columns at 1 in H. cbn [shape rbind] in H.
  destruct (take_rows _ _) as [v'|e]; [|done]. cbn [rbind] in H.
  destruct (reduced_product _ _ _ _) as [m'|e]; [|done]. cbn [rbind] in H.
  injection H as <- <- <- <-.
  exists xs, r, c, U, s_all, V, s0. by split_and!.
Qed.

(** C9.  For a fixed store, last core and index sets, and thresholds
    [t1 <= t2]: when [_reduced_matrix] returns for both, the [u] it returns
    for [t2] has at most as many columns as the [u] it returns for [t1]. *)
Theorem retained_rank_is_antitone {L : @Lapack float64} (h : @store float64) (last_core : loc)
    (x y : list Z) (t1 t2 : float)
    (m1 u1 s1 v1 m2 u2 s2 v2 : @ndarray float64) (h1 h2 : @store float64) :
  PrimFloat.leb t1 t2 = true ->
  @_reduced_matrix float64 L last_core x y t1 h = Ok ((m1, u1, s1, v1), h1) ->
  @_reduced_matrix float64 L last_core x y t2 h = Ok ((m2, u2, s2, v2), h2) ->
  exists r k1 k2, shape u1 = [r; k1] /\ shape u2 = [r; k2] /\ k2 <= k1.
Proof.
  intros Hle Hrun1 Hrun2.
  destruct (reduced_matrix_frame _ _ _ _ _ _ _ Hrun1) as (_ & _ & core & Hcore & Hv1).
  destruct (reduced_matrix_frame _ _ _ _ _ _ _ Hrun2) as (_ & _ & core' & Hcore' & Hv2).
  rewrite Hcore in Hcore'. injection Hcore' as <-.
  destruct (reduced_value_rank _ _ _ _ _ _ _ _ Hv1)
    as (xs & r & c & U & s_all & V & s0 & Hxs & Hsx & Hsvd & Hs0 & Hu1 & _).
  destruct (reduced_value_rank _ _ _ _ _ _ _ _ Hv2)
    as (xs' & r' & c' & U' & s_all' & V' & s0' & Hxs' & Hsx' & Hsvd' & Hs0' & Hu2 & _).
  rewrite Hxs in Hxs'. injection Hxs' as <-.
  rewrite Hsx in Hsx'. injection Hsx' as <- <-.
  rewrite Hsvd in Hsvd'. injection Hsvd' as <- <- <-.
  rewrite Hs0 in Hs0'. injection Hs0' as <-.
  exists r, (length (@retained float64 s_all s0 t1)), (length (@retained float64 s_all s0 t2)).
  split_and!; [done|done|].
  apply (@retained_length_antitone float64). intros ratio. cbn.
  by apply float_le_lt_trans.
Qed.

(** [_reduced_matrix] on the pair ([0,1], [2,3]) of [psi_2] (singular
    values 2 and 1), as a function of the threshold. *)
Definition reduced_2 (threshold : float)
  : @ndarray float64 * @ndarray float64 * @ndarray float64 * @ndarray float64 * @store float64 :=
  outcome (@_reduced_matrix float64 table_lapack 1 [0; 1]%Z [2; 3]%Z threshold store_2)
    ((array64 [] [], array64 [] [], array64 [] [], array64 [] []), store_2).

Lemma retained_rank_is_antitone_witness :
  PrimFloat.leb (@default_threshold float64) 0.75 = true
  /\ shape (reduced_2 (@default_threshold float64)).1.1.1.2 = [2; 2]
  /\ shape (reduced_2 0.75).1.1.1.2 = [2; 1]
  /\ exists r k1 k2,
       shape (reduced_2 (@default_threshold float64)).1.1.1.2 = [r; k1]
       /\ shape (reduced_2 0.75).1.1.1.2 = [r; k2] /\ k2 <= k1.
Proof.
  split; [reflexivity|]. split; [reflexivity|]. split; [reflexivity|].
  apply (@retained_rank_is_antitone table_lapack store_2 1 [0; 1]%Z [2; 3]%Z
           (@default_threshold float64) 0.75%float
           (reduced_2 (@default_threshold float64)).1.1.1.1
           (reduced_2 (@default_threshold float64)).1.1.1.2
           (reduced_2 (@default_threshold float64)).1.1.2
           (reduced_2 (@default_threshold float64)).1.2
           (reduced_2 0.75).1.1.1.1 (reduced_2 0.75).1.1.1.2
           (reduced_2 0.75).1.1.2 (reduced_2 0.75).1.2
           (reduced_2 (@default_threshold float64)).2 (reduced_2 0.75).2);
    vm_compute; reflexivity.
Defined.

Section Prefix.
Context {S : Scalar}.







End Prefix.



(** ** The order of the eigenvalues *)

Section Argsort.
Context {S : Scalar}.

(** Adjacent entries are in numpy's sorting order. *)
Definition np_sorted (l : list F) : Prop :=
  forall i a b, l !! i = Some a -> l !! (Datatypes.S i) = Some b -> np_lt b a = false.

(** [l[0] <= l[1] <= ...] *)
Definition nondecreasing (l : list F) : Prop :=
  forall i a b, l !! i = Some a -> l !! (Datatypes.S i) = Some b -> fle a b = true.

Definition sorted_pairs (l : list (nat * F)) : Prop :=
  forall i p q, l !! i = Some p -> l !! (Datatypes.S i) = Some q -> np_lt q.2 p.2 = false.

Hypothesis np_lt_asym : forall a b : F, np_lt a b = true -> np_lt b a = false.

Lemma insert_sorted_head (x : nat * F) (l : list (nat * F)) :
  exists l', insert_sorted x l = x :: l'
             \/ exists y l0, l = y :: l0 /\ insert_sorted x l = y :: l' /\ np_lt y.2 x.2 = true.
Proof.
  destruct l as [|y l0]; cbn.
  - exists []. by left.
  - destruct (np_lt y.2 x.2) eqn:E.
    + exists (insert_sorted x l0). right. by exists y, l0.
    + exists (y :: l0). by left.
Qed.

Lemma insert_sorted_sorted (x : nat * F) (l : list (nat * F)) :
  sorted_pairs l -> sorted_pairs (insert_sorted x l).
Proof.
  induction l as [|y l IH]; intros Hs.
  - intros [|i] p q Hp Hq; cbn in *; done.
  - cbn. destruct (np_lt y.2 x.2) eqn:E.
    + assert (Hs' : sorted_pairs l).
      { intros i p q Hp Hq. by apply (Hs (Datatypes.S i)). }
      specialize (IH Hs').
      intros [|i] p q Hp Hq; cbn in Hp, Hq.
      * injection Hp as <-.
        destruct (insert_sorted_head x l) as (l' & [Hl|(z & l0 & -> & Hl & Hz)]);
          rewrite Hl in Hq; cbn in Hq; injection Hq as <-.
        -- by apply np_lt_asym.
        -- by apply (Hs 0).
      * by apply (IH i).
    + intros [|[|i]] p q Hp Hq; cbn in Hp, Hq.
      * by injection Hp as <-; injection Hq as <-.
      * injection Hp as <-. by apply (Hs 0 y q).
      * by apply (Hs (Datatypes.S i)).
Qed.

Lemma insert_sorted_perm (x : nat * F) (l : list (nat * F)) :
  Permutation (insert_sorted x l) (x :: l).
Proof.
  induction l as [|y l IH]; cbn; [done|].
  destruct (np_lt y.2 x.2); [|done].
  rewrite IH. apply perm_swap.
Qed.

Lemma sort_pairs_perm (l : list (nat * F)) :
  Permutation (fold_right insert_sorted [] l) l.
Proof.
  induction l as [|x l IH]; cbn; [done|]. by rewrite insert_sorted_perm, IH.
Qed.

Lemma sort_pairs_sorted (l : list (nat * F)) :
  sorted_pairs (fold_right insert_sorted [] l).
Proof.
  induction l as [|x l IH]; cbn.
  - by intros [|i] p q Hp Hq.
  - by apply insert_sorted_sorted.
Qed.

(** [argsort] returns a permutation of the positions. *)
Lemma argsort_perm (keys : list F) : Permutation (argsort keys) (seq 0 (length keys)).
Proof.
  unfold argsort. rewrite sort_pairs_perm.
  rewrite <- (fst_zip (seq 0 (length keys)) keys) at 2 by (by rewrite length_seq).
  done.
Qed.

(** The keys, read in the order [argsort] gives, are in sorting order. *)
Lemma argsort_sorted {A} (f : A -> F) (w : list A) (d : A) :
  np_sorted (map (fun j => f (nth j w d)) (argsort (map f w))).
Proof.
  unfold argsort.
  set (pairs := combine (seq 0 (length (map f w))) (map f w)).
  assert (Hkey : Forall (fun p : nat * F => f (nth p.1 w d) = p.2) (fold_right insert_sorted [] pairs)).
  { rewrite sort_pairs_perm. apply Forall_lookup. intros i [j k] Hi. cbn.
    subst pairs. apply lookup_zip_with_Some in Hi as (j' & k' & [= <- <-] & Hj & Hk).
    apply lookup_seq in Hj as [-> _]. cbn.
    rewrite list_lookup_fmap in Hk.
    destruct (w !! i) as [z|] eqn:Hz; [|done]. injection Hk as <-.
    by rewrite (nth_lookup_Some _ _ _ _ Hz). }
  intros i a b Ha Hb.
  rewrite <- list_fmap_compose, list_lookup_fmap in Ha, Hb.
  destruct (fold_right insert_sorted [] pairs !! i) as [p|] eqn:Hp; [|done].
  destruct (fold_right insert_sorted [] pairs !! Datatypes.S i) as [q|] eqn:Hq; [|done].
  cbn in Ha, Hb. injection Ha as <-. injection Hb as <-.
  rewrite (proj1 (Forall_lookup _ _) Hkey _ _ Hp), (proj1 (Forall_lookup _ _) Hkey _ _ Hq).
  by apply (sort_pairs_sorted pairs i).
Qed.

End Argsort.

Lemma SFcompare_self_of_lt (a b : spec_float) :
  SFcompare a b = Some Lt -> SFcompare a a = Some Eq /\ SFcompare b b = Some Eq.
Proof. intros H. split; sf_cases; cmp_cases. Qed.

Lemma float_ltb_not_nan (a b : float) :
  PrimFloat.ltb a b = true -> PrimFloat.leb a a = true /\ PrimFloat.leb b b = true.
Proof.
  rewrite float_ltb_true, !float_leb_true. intros H.
  destruct (SFcompare_self_of_lt _ _ H). auto.
Qed.

(** numpy's sorting order on binary64 (NaN last) is asymmetric. *)
Lemma float_np_lt_asym (a b : float) :
  @np_lt float64 a b = true -> @np_lt float64 b a = false.
Proof.
  unfold np_lt. cbn. intros H.
  apply orb_true_iff in H as [H|H].
  - destruct (float_ltb_not_nan _ _ H) as [Ha Hb].
    by rewrite (float_lt_asym _ _ H), Ha.
  - apply andb_true_iff in H as [Hb Ha]. apply negb_true_iff in Hb.
    rewrite Ha. cbn. rewrite orb_false_r.
    destruct (PrimFloat.ltb b a) eqn:E; [|done].
    destruct (float_ltb_not_nan _ _ E). congruence.
Qed.

Lemma float_sorted_nondecreasing (l : list float) :
  Forall (fun k => PrimFloat.leb k k = true) l ->
  @np_sorted float64 l -> @nondecreasing float64 l.
Proof.
  intros Hnan Hs i a b Ha Hb. cbn.
  pose proof (proj1 (Forall_lookup _ _) Hnan _ _ Ha) as Haa.
  pose proof (proj1 (Forall_lookup _ _) Hnan _ _ Hb) as Hbb.
  apply float_le_total; try done.
  specialize (Hs i a b Ha Hb). unfold np_lt in Hs. cbn in Hs.
  by apply orb_false_iff in Hs as [Hs _].
Qed.

Lemma nth_Forall_default {A} (P : A -> Prop) (l : list A) (d : A) (k : nat) :
  Forall P l -> P d -> P (nth k l d).
Proof.
  intros Hl Hd. destruct (nth_in_or_default k l d) as [Hin| ->]; [|done].
  by apply (proj1 (List.Forall_forall _ _) Hl).
Qed.

Lemma pair_value_inv {S : Scalar} {L : Lapack} (core : ndarray) (x y : list Z) ev c :
  pair_value core x y = Ok (ev, c) ->
  exists matrix u s v w vecs,
    reduced_value core x y default_threshold = Ok (matrix, u, s, v)
    /\ np_linalg_eig matrix = Ok (w, vecs)
    /\ ev = real_entries w (argsort (map eigen_distance w))
    /\ eigen_core u s (real_columns (length w) vecs (argsort (map eigen_distance w))) = Ok c.
Proof.
  unfold pair_value. intros H.
  destruct (reduced_value core x y default_threshold) as [[[[m u] s] v]|e] eqn:Hred; [|done].
  cbn [rbind] in H.
  destruct (np_linalg_eig m) as [[w vecs]|e] eqn:Heig; [|done]. cbn [rbind] in H.
  destruct (eigen_core _ _ _) as [c'|e] eqn:Hc; [|done]. cbn [rbind] in H.
  injection H as <- <-. exists m, u, s, v, w, vecs. by split_and!.
Qed.

(** The eigenvalue of a real number: [np.abs(e - 1)]. *)
Definition real_distance (e : float) : float := PrimFloat.abs (e - 1).

(** A last core of six snapshots: columns 0-2 are the identity, and columns
    3-5 make the reduced matrix of the pair ([0,1,2], [3,4,5]) equal to
    [rotation_block]. *)
Definition first_core_3 : @ndarray float64 :=
  array64 [1; 3; 1; 3] [1; 0; 0;  0; 1; 0;  0; 0; 1]%float.
Definition last_core_3 : @ndarray float64 :=
  array64 [3; 6; 1; 1] [1; 0; 0;  0;  0; 0;
                        0; 1; 0;  0;  1; 2;
                        0; 0; 1;  0; -2; 1]%float.
Definition psi_3 : list (@ndarray float64) := [first_core_3; last_core_3].

(** C5, as stated, fails.  The reduced matrix of this pair has the
    eigenvalues 0, 1 + 2i and 1 - 2i, at the distances 1, 2, 2 from 1; the
    driver returns their real parts in that order, [0, 1, 1], whose
    distances from 1 are 1, 0, 0. *)
Lemma real_parts_are_not_ordered :
  (exists h', @_reduced_matrix float64 table_lapack 1 [0; 1; 2]%Z [3; 4; 5]%Z
                (@default_threshold float64)
                {| arrays := psi_3; tensors := [{| cores := [0; 1] |}] |}
              = Ok ((array64 [3; 3] rotation_block, array64 [3; 3] (identity_matrix 3),
                     array64 [3] [1; 1; 1]%float, array64 [3; 3] (identity_matrix 3)), h'))
  /\ (exists p h', hosvd64 psi_3 (IndexArray [0; 1; 2]%Z) (IndexArray [3; 4; 5]%Z) tt
                     hosvd_threshold false empty_store
                   = Ok (@Unwrapped float64 [0; 1; 1]%float p, h'))
  /\ map real_distance [0; 1; 1]%float = [1; 0; 0]%float
  /\ ~ @nondecreasing float64 (map real_distance [0; 1; 1]%float).
Proof.
  split_and!.
  - eexists. vm_compute. reflexivity.
  - do 2 eexists. vm_compute. reflexivity.
  - reflexivity.
  - intros H. by specialize (H 0 1%float 0%float eq_refl eq_refl).
Qed.

(** C5, amended.  Every eigenvalue array a driver returns holds the real
    parts of the eigenvalues [w] of a reduced matrix, taken in the order
    [idx] of [argsort] on the distances [|w - 1|] of the complex
    eigenvalues: [idx] is a permutation of the positions; when no distance
    is NaN, the distances [|w[idx[i]] - 1|] are non-decreasing in [i]; and
    when moreover every eigenvalue has a zero imaginary part, the distances
    [|eigenvalues[i] - 1|] of the returned values are non-decreasing. *)
Theorem eigenvalues_ordered_by_complex_distance
    {L : @Lapack float64} {T : @Transform float64} (d : @driver float64)
    data xi yi basis progress (h : @store float64) res h' :
  @amuset float64 L T d data xi yi basis progress h = Ok (res, h') ->
  exists init core,
    @orthonormalized float64 T d data basis progress = Ok (init ++ [core])
    /\ Forall (fun ev =>
          exists x y matrix u s v w vecs,
            @reduced_value float64 L core x y (@default_threshold float64) = Ok (matrix, u, s, v)
            /\ @np_linalg_eig float64 L matrix = Ok (w, vecs)
            /\ let idx := @argsort float64 (map (@eigen_distance float64) w) in
               Permutation idx (seq 0 (length w))
               /\ ev = @real_entries float64 w idx
               /\ (Forall (fun z => PrimFloat.leb (@eigen_distance float64 z)
                                      (@eigen_distance float64 z) = true) w ->
                   @nondecreasing float64
                     (map (fun j => @eigen_distance float64 (nth j w (0, 0)%float)) idx)
                   /\ (Forall (fun z => PrimFloat.eqb z.2 0 = true) w ->
                       @nondecreasing float64 (map real_distance ev))))
         (@eigenvalue_arrays float64 res).
Proof.
  intros Hrun. destruct (amuset_run _ _ _ _ _ _ _ _ _ Hrun)
    as (init & core & xs & ys & results & new & Ho & _ & Hres & -> & _).
  exists init, core. split; [exact Ho|].
  apply Forall_fmap, Forall_lookup. intros i [ev c] Hi. cbn.
  destruct (Forall2_lookup_r _ _ _ _ _ Hres Hi) as (j & _ & (x & y & _ & _ & Hv)).
  destruct (pair_value_inv _ _ _ _ _ Hv) as (m & u & s & v & w & vecs & Hred & Heig & -> & _).
  exists x, y, m, u, s, v, w, vecs. split; [done|]. split; [done|]. cbv zeta. split_and!.
  - rewrite argsort_perm. by rewrite length_map.
  - done.
  - intros Hnan.
    assert (Hsorted : @nondecreasing float64
              (map (fun j => @eigen_distance float64 (nth j w (0, 0)%float))
                 (@argsort float64 (map (@eigen_distance float64) w)))).
    { apply float_sorted_nondecreasing.
      - apply Forall_fmap, Forall_forall. intros k _.
        refine (nth_Forall_default
                  (fun z => PrimFloat.leb (@eigen_distance float64 z)
                              (@eigen_distance float64 z) = true) w _ k Hnan _).
        reflexivity.
      - apply (@argsort_sorted float64 float_np_lt_asym). }
    split; [exact Hsorted|].
    intros Hreal. unfold real_entries. rewrite <- list_fmap_compose.
    erewrite list_fmap_ext; [exact Hsorted|].
    intros n k _. cbn.
    pose proof (nth_Forall_default (fun z : float * float => PrimFloat.eqb z.2 0 = true)
                  w (0, 0)%float k Hreal eq_refl) as Hz.
    unfold real_distance, eigen_distance. cbn in *. unfold float_hypot. by rewrite Hz.
Qed.

Lemma eigenvalues_ordered_by_complex_distance_witness :
  let run := hosvd64 psi_3 (IndexArray [0; 1; 2]%Z) (IndexArray [3; 4; 5]%Z) tt
               hosvd_threshold false empty_store in
  let p := outcome run (@Lists float64 [] [], empty_store) in
  run = Ok p
  /\ @eigenvalue_arrays float64 p.1 = [[0; 1; 1]%float]
  /\ Forall (fun ev => exists w : list (float * float),
               Permutation (@argsort float64 (map (@eigen_distance float64) w))
                 (seq 0 (length w))
               /\ ev = @real_entries float64 w (@argsort float64 (map (@eigen_distance float64) w)))
       (@eigenvalue_arrays float64 p.1).
Proof.
  cbv zeta. split; [vm_compute; reflexivity|]. split; [vm_compute; reflexivity|].
  pose proof (@eigenvalues_ordered_by_complex_distance table_lapack prepared
                (@Hosvd float64 hosvd_threshold) psi_3
                (IndexArray [0; 1; 2]%Z) (IndexArray [3; 4; 5]%Z) tt false empty_store
                (outcome (hosvd64 psi_3 (IndexArray [0; 1; 2]%Z) (IndexArray [3; 4; 5]%Z) tt
                            hosvd_threshold false empty_store)
                   (@Lists float64 [] [], empty_store)).1
                (outcome (hosvd64 psi_3 (IndexArray [0; 1; 2]%Z) (IndexArray [3; 4; 5]%Z) tt
                            hosvd_threshold false empty_store)
                   (@Lists float64 [] [], empty_store)).2) as H.
  assert (Hrun : hosvd64 psi_3 (IndexArray [0; 1; 2]%Z) (IndexArray [3; 4; 5]%Z) tt
                   hosvd_threshold false empty_store
                 = Ok (outcome (hosvd64 psi_3 (IndexArray [0; 1; 2]%Z)
                                  (IndexArray [3; 4; 5]%Z) tt hosvd_threshold false empty_store)
                         (@Lists float64 [] [], empty_store)))
    by (vm_compute; reflexivity).
  rewrite (surjective_pairing (outcome _ _)) in Hrun at 1.
  destruct (H Hrun) as (init & core & _ & Hall).
  eapply List.Forall_impl; [|exact Hall].
  intros ev (x & y & m & u & s & v & w & vecs & _ & _ & Hperm & Hev & _). by exists w.
Defined.

(** * Further properties of the module *)

(** ** The outcome of a call, errors included *)

Section Outcomes.
Context {S : Scalar} {L : Lapack}.

(** What the pass for index [i] computes or raises, when the last core
    holds [core]. *)
Definition pair_outcome (core : ndarray) (xs ys : list (list Z)) (i : nat)
  : result (list F * ndarray) :=
  rbind (getitem xs i) (fun x => rbind (getitem ys i) (fun y => pair_value core x y)).

Lemma pair_outcome_ok (core : ndarray) (xs ys : list (list Z)) (i : nat) r :
  pair_outcome core xs ys i = Ok r <-> pair_at core xs ys i r.
Proof.
  unfold pair_outcome, pair_at. split.
  - destruct (getitem xs i) as [x|e]; [|done]. cbn.
    destruct (getitem ys i) as [y|e]; [|done]. cbn. intros H. by exists x, y.
  - intros (x & y & -> & -> & H). done.
Qed.

Lemma rmapM_ok {A B} (f : A -> result B) (l : list A) (bs : list B) :
  rmapM f l = Ok bs <-> Forall2 (fun a b => f a = Ok b) l bs.
Proof.
  revert bs. induction l as [|a l IH]; intros bs; cbn.
  - split; [intros [= <-]; constructor|by inversion 1].
  - destruct (f a) as [b|e] eqn:Hfa; cbn.
    + destruct (rmapM f l) as [bs'|e] eqn:Hl; cbn.
      * split.
        -- intros [= <-]. constructor; [done|]. by apply IH.
        -- inversion 1 as [|? b' ? bs'' Hb Hbs]; subst. apply IH in Hbs.
           rewrite Hfa in Hb. by injection Hb as <-; injection Hbs as <-.
      * split; [done|]. inversion 1 as [|? b' ? bs'' Hb Hbs]; subst.
        by apply IH in Hbs.
    + split; [done|]. inversion 1 as [|? b' ? bs'' Hb Hbs]; subst. congruence.
Qed.

(** [rmapM] stops at the first element that raises. *)
Lemma rmapM_first_raise {A B} (f : A -> result B) (l1 l2 : list A) (a : A) (e : exn) :
  Forall (fun a' => exists b, f a' = Ok b) l1 -> f a = Raise e ->
  rmapM f (l1 ++ a :: l2) = Raise e.
Proof.
  intros H Ha. induction H as [|a' l1 [b Hb] _ IH]; cbn.
  - by rewrite Ha.
  - by rewrite Hb, IH.
Qed.

(** The loop, run to its end or to the first pass that raises. *)
Lemma amuset_loop_outcome (psi : tt_ref) (last_core : loc) (core : ndarray)
    (xs ys : list (list Z)) (init : list loc) (range : list nat) :
  forall (acc : list (list F) * list tt_ref) (h : store) (old : loc),
  arrays h !! last_core = Some core ->
  tensors h !! psi = Some {| cores := init ++ [old] |} ->
  match rmapM (pair_outcome core xs ys) range with
  | Raise e => amuset_loop psi last_core xs ys range acc h = Raise e
  | Ok results =>
      exists h', amuset_loop psi last_core xs ys range acc h
                 = Ok ((acc.1 ++ map fst results, acc.2 ++ map (fun _ => psi) results), h')
  end.
Proof.
  induction range as [|i range IH]; intros [evs ets] h old Hcore Hpsi.
  - cbn. exists h. by rewrite !app_nil_r.
  - cbn [amuset_loop rmapM]. unfold pair_outcome at 1.
    generalize (amuset_pair_run h psi _ last_core core xs ys i evs ets Hcore Hpsi).
    destruct (getitem xs i) as [x|e]; cbn [rbind];
      [|by intros Hrun; unfold bind; rewrite Hrun].
    destruct (getitem ys i) as [y|e]; cbn [rbind];
      [|by intros Hrun; unfold bind; rewrite Hrun].
    destruct (pair_value core x y) as [[ev c]|e]; cbn [rbind];
      [|by intros Hrun; unfold bind; rewrite Hrun].
    cbn zeta. cbn [cores]. rewrite set_last_item_snoc.
    set (tmp := reduced_temporaries core x y).
    set (h1 := {| arrays := (arrays h ++ tmp) ++ [c]; tensors := _ |}).
    intros Hrun.
    assert (Hcore1 : arrays h1 !! last_core = Some core).
    { cbn. rewrite <- app_assoc. by apply lookup_app_l_Some. }
    assert (Hpsi1 : tensors h1 !! psi = Some {| cores := init ++ [length (arrays h ++ tmp)] |}).
    { cbn. apply list_lookup_insert_eq. by eapply lookup_lt_Some. }
    specialize (IH (evs ++ [ev], ets ++ [psi]) h1 _ Hcore1 Hpsi1).
    unfold bind. rewrite Hrun.
    destruct (rmapM (pair_outcome core xs ys) range) as [results|e]; cbn [rbind]; [|done].
    destruct IH as [h' ->]. exists h'. cbn. by rewrite <- !app_assoc.
Qed.

End Outcomes.

Section DriverOutcomes.
Context {S : Scalar} {L : Lapack} {T : Transform}.

(** The result of a driver as a function of its arguments and of the
    reference [psi] that its TT object gets: the exception of the first step
    that raises, or the eigenvalues of all pairs with [psi] once per pair. *)
Definition amuset_value (d : driver) (data : data_matrix) (xi yi : index_arg)
    (basis : basis_list) (progress : bool) (psi : tt_ref) : result amuset_result :=
  rbind (orthonormalized d data basis progress) (fun cs =>
  rbind (last_item cs) (fun core =>
  rbind (as_index_lists xi yi) (fun xy =>
  rbind (rmapM (pair_outcome core xy.1 xy.2) (seq 0 (length xy.1))) (fun results =>
  if length xy.1 =? 1 then
    match results with
    | r :: _ => Ok (Unwrapped r.1 psi)
    | [] => Raise IndexError
    end
  else Ok (Lists (map fst results) (map (fun _ => psi) results)))))).

Lemma amuset_outcome (d : driver) data xi yi basis progress (h : store) :
  match amuset_value d data xi yi basis progress (length (tensors h)) with
  | Raise e => amuset d data xi yi basis progress h = Raise e
  | Ok res => exists h', amuset d data xi yi basis progress h = Ok (res, h')
  end.
Proof.
  rewrite amuset_unfold. unfold amuset_value.
  destruct (orthonormalized d data basis progress) as [cs|e]; [|done]. cbn [rbind].
  set (psi := length (tensors h)).
  set (h0 := {| arrays := arrays h ++ cs; tensors := _ |}).
  unfold amuset_eigen.
  assert (Hpsi0 : tensors h0 !! psi = Some {| cores := seq (length (arrays h)) (length cs) |})
    by apply lookup_snoc.
  rewrite (bind_get_tensor _ _ _ _ Hpsi0). cbn [cores].
  destruct (decide (cs = [])) as [->|Hne]; [done|].
  destruct (exists_last Hne) as [init [core ->]].
  rewrite length_app. cbn [length]. rewrite seq_app. cbn [seq].
  rewrite !last_item_snoc, bind_lift_ok. cbn [rbind].
  destruct (as_index_lists xi yi) as [[xs ys]|e]; [|done].
  rewrite bind_lift_ok. cbn [rbind fst snd].
  assert (Hcore : arrays h0 !! (length (arrays h) + length init) = Some core).
  { cbn. rewrite app_assoc. apply lookup_snoc_at. by rewrite length_app. }
  assert (Hpsi : tensors h0 !! psi
                 = Some {| cores := seq (length (arrays h)) (length init)
                                    ++ [length (arrays h) + length init] |}).
  { rewrite Hpsi0. do 2 f_equal. rewrite length_app. cbn. by rewrite seq_app. }
  pose proof (amuset_loop_outcome psi _ core xs ys _ (seq 0 (length xs)) ([], []) h0 _
                Hcore Hpsi) as Hloop.
  destruct (rmapM (pair_outcome core xs ys) (seq 0 (length xs))) as [results|e] eqn:Hm;
    cbn [rbind]; [|by unfold bind at 1; rewrite Hloop].
  destruct Hloop as [h' Hloop]. cbn [fst snd app] in Hloop.
  assert (Hlen : length results = length xs).
  { apply rmapM_ok, Forall2_length in Hm. by rewrite length_seq in Hm. }
  destruct (length xs =? 1) eqn:Hone.
  - apply Nat.eqb_eq in Hone.
    destruct results as [|r [|??]]; cbn in Hlen; try lia.
    exists h'. unfold bind at 1. by rewrite Hloop.
  - exists h'. unfold bind at 1. by rewrite Hloop.
Qed.

End DriverOutcomes.

Section DriverProperties.
Context {S : Scalar} {L : Lapack} {T : Transform}.

(** The value of a call on one bare pair. *)
Lemma amuset_value_single (d : driver) data (x y : list Z) basis progress (psi : tt_ref)
    (init : list ndarray) (core : ndarray) :
  orthonormalized d data basis progress = Ok (init ++ [core]) ->
  amuset_value d data (IndexArray x) (IndexArray y) basis progress psi
  = match pair_value core x y with
    | Ok r => Ok (Unwrapped r.1 psi)
    | Raise e => Raise e
    end.
Proof.
  intros Ho. unfold amuset_value. rewrite Ho. cbn [rbind].
  rewrite last_item_snoc. cbn.
  unfold pair_outcome. cbn. by destruct (pair_value core x y).
Qed.

(** The value of a call on a list of pairs. *)
Lemma amuset_value_batch (d : driver) data (xs ys : list (list Z)) basis progress
    (psi : tt_ref) (init : list ndarray) (core : ndarray) :
  orthonormalized d data basis progress = Ok (init ++ [core]) ->
  amuset_value d data (IndexList xs) (IndexList ys) basis progress psi
  = rbind (rmapM (pair_outcome core xs ys) (seq 0 (length xs))) (fun results =>
    if length xs =? 1 then
      match results with
      | r :: _ => Ok (Unwrapped r.1 psi)
      | [] => Raise IndexError
      end
    else Ok (Lists (map fst results) (map (fun _ => psi) results))).
Proof.
  intros Ho. unfold amuset_value. rewrite Ho. cbn [rbind].
  by rewrite last_item_snoc.
Qed.

Lemma amuset_raise_value (d : driver) data xi yi basis progress (h : store) (e : exn) :
  amuset d data xi yi basis progress h = Raise e ->
  amuset_value d data xi yi basis progress (length (tensors h)) = Raise e.
Proof.
  intros Hrun. pose proof (amuset_outcome d data xi yi basis progress h) as Ho.
  destruct (amuset_value _ _ _ _ _ _ _) as [res|e'].
  - destruct Ho as [h' Ho]. congruence.
  - congruence.
Qed.

Lemma amuset_ok_value (d : driver) data xi yi basis progress (h : store) res h' :
  amuset d data xi yi basis progress h = Ok (res, h') ->
  amuset_value d data xi yi basis progress (length (tensors h)) = Ok res.
Proof.
  intros Hrun. pose proof (amuset_outcome d data xi yi basis progress h) as Ho.
  destruct (amuset_value _ _ _ _ _ _ _) as [res'|e'].
  - destruct Ho as [h'' Ho]. congruence.
  - congruence.
Qed.

(** X1.  When a batch call returns, the separate call on each of its pairs
    returns too, with the eigenvalue array the batch call gives for that
    pair; and every eigentensor of the batch reads the same cores as the
    eigentensor of the separate call on the last pair. *)
Theorem batch_agrees_with_separate_calls (d : driver) data (xs ys : list (list Z))
    basis progress (h : store) res h' :
  amuset d data (IndexList xs) (IndexList ys) basis progress h = Ok (res, h') ->
  forall i x y, xs !! i = Some x -> ys !! i = Some y ->
  exists ev p h_i,
    amuset d data (IndexArray x) (IndexArray y) basis progress h = Ok (Unwrapped ev p, h_i)
    /\ eigenvalue_arrays res !! i = Some ev
    /\ (i + 1 = length xs ->
        Forall (fun q => read_cores h' q = read_cores h_i p) (eigentensor_refs res)).
Proof.
  intros Hrun i x y Hx Hy.
  destruct (amuset_eigentensors_hold_last_pair _ _ _ _ _ _ _ _ _ Hrun)
    as (init & core & xs' & ys' & results & Ho & Hxy & Hres & Hev & _ & Hlast).
  cbn in Hxy. injection Hxy as <- <-.
  assert (Hi : i < length xs) by (by eapply lookup_lt_Some).
  destruct (Forall2_lookup_l _ _ _ i i Hres) as (r & Hr & Hp).
  { apply lookup_seq. split; [done|lia]. }
  destruct Hp as (x' & y' & Hx' & Hy' & Hv).
  unfold getitem in Hx', Hy'. rewrite Hx in Hx'. rewrite Hy in Hy'.
  injection Hx' as <-. injection Hy' as <-.
  pose proof (amuset_outcome d data (IndexArray x) (IndexArray y) basis progress h) as Hsingle.
  rewrite (amuset_value_single _ _ _ _ _ _ _ _ _ Ho), Hv in Hsingle.
  destruct Hsingle as [h_i Hsingle].
  exists r.1, (length (tensors h)), h_i. split_and!; [done| |].
  - by rewrite Hev, list_lookup_fmap, Hr.
  - intros Hend.
    destruct (amuset_eigentensors_hold_last_pair _ _ _ _ _ _ _ _ _ Hsingle)
      as (init1 & core1 & xs1 & ys1 & results1 & Ho1 & Hxy1 & Hres1 & _ & _ & Hlast1).
    rewrite Ho in Ho1. injection Ho1 as Ho1. apply app_inj_tail in Ho1 as [<- <-].
    cbn in Hxy1. injection Hxy1 as <- <-. cbn in Hres1.
    inversion Hres1 as [|? r1 ? rest1 Hp1 Hnil]; subst. inversion Hnil; subst.
    destruct Hp1 as (x1 & y1 & [= <-] & [= <-] & Hv1).
    rewrite Hv in Hv1. injection Hv1 as <-.
    specialize (Hlast1 [] r eq_refl). cbn in Hlast1. inversion Hlast1 as [|? ? Hread _]; subst.
    rewrite Hread.
    assert (Hlen : length results = length xs).
    { apply Forall2_length in Hres. by rewrite length_seq in Hres. }
    destruct (decide (results = [])) as [->|Hne]; [cbn in Hlen; lia|].
    destruct (exists_last Hne) as [rs [r' ->]].
    rewrite length_app in Hlen. cbn in Hlen.
    rewrite lookup_app_r in Hr by lia.
    replace (i - length rs) with 0 in Hr by lia. injection Hr as ->.
    by apply (Hlast rs).
Qed.

(** X2.  When the separate calls on the pairs before pair [k] return and
    the separate call on pair [k] raises [e], the batch call raises [e]: no
    exception is caught, and the results of the earlier pairs are lost. *)
Theorem batch_raises_first_failure (d : driver) data (xs ys : list (list Z))
    basis progress (h : store) (k : nat) (x y : list Z) (e : exn) :
  xs !! k = Some x -> ys !! k = Some y ->
  (forall i x' y', i < k -> xs !! i = Some x' -> ys !! i = Some y' ->
     exists r, amuset d data (IndexArray x') (IndexArray y') basis progress h = Ok r) ->
  amuset d data (IndexArray x) (IndexArray y) basis progress h = Raise e ->
  amuset d data (IndexList xs) (IndexList ys) basis progress h = Raise e.
Proof.
  intros Hx Hy Hbefore Hfail.
  pose proof (amuset_outcome d data (IndexList xs) (IndexList ys) basis progress h) as Hbatch.
  apply amuset_raise_value in Hfail.
  assert (Hval : amuset_value d data (IndexList xs) (IndexList ys) basis progress
                   (length (tensors h)) = Raise e); [|by rewrite Hval in Hbatch].
  destruct (orthonormalized d data basis progress) as [cs|e0] eqn:Ho;
    [|by unfold amuset_value in *; rewrite Ho in *].
  destruct (decide (cs = [])) as [->|Hne];
    [by unfold amuset_value in *; rewrite Ho in *|].
  destruct (exists_last Hne) as [init [core ->]].
  rewrite (amuset_value_single _ _ _ _ _ _ _ _ _ Ho) in Hfail.
  rewrite (amuset_value_batch _ _ _ _ _ _ _ _ _ Ho).
  destruct (pair_value core x y) as [r|e'] eqn:Hv; [done|]. injection Hfail as ->.
  assert (Hk : k < length xs) by (by eapply lookup_lt_Some).
  assert (Hky : k < length ys) by (by eapply lookup_lt_Some).
  replace (seq 0 (length xs)) with (seq 0 k ++ k :: seq (Datatypes.S k) (length xs - k - 1)).
  2: { replace (length xs) with (k + Datatypes.S (length xs - k - 1)) at 2 by lia.
       by rewrite seq_app. }
  rewrite (rmapM_first_raise _ _ _ _ e); [done| |].
  - apply Forall_forall. intros i Hi. apply in_seq in Hi as [_ Hi].
    cbn in Hi.
    destruct (lookup_lt_is_Some_2 xs i) as [x' Hx']; [lia|].
    destruct (lookup_lt_is_Some_2 ys i) as [y' Hy']; [lia|].
    destruct (Hbefore i x' y' Hi Hx' Hy') as [[res' h''] Hok].
    apply amuset_ok_value in Hok.
    rewrite (amuset_value_single _ _ _ _ _ _ _ _ _ Ho) in Hok.
    destruct (pair_value core x' y') as [r|?] eqn:Hv'; [|done].
    exists r. unfold pair_outcome, getitem. by rewrite Hx', Hy'.
  - unfold pair_outcome, getitem. by rewrite Hx, Hy.
Qed.

(** X3.  With fewer y index sets than x index sets, the batch call raises
    IndexError at the first pair without a y index set, once [psi] is built
    and the pairs before it are processed. *)
Theorem missing_y_indices_raise (d : driver) data (xs ys : list (list Z))
    basis progress (h : store) (init : list ndarray) (core : ndarray) :
  length ys < length xs ->
  orthonormalized d data basis progress = Ok (init ++ [core]) ->
  (forall i x y, xs !! i = Some x -> ys !! i = Some y ->
     exists r, amuset d data (IndexArray x) (IndexArray y) basis progress h = Ok r) ->
  amuset d data (IndexList xs) (IndexList ys) basis progress h = Raise IndexError.
Proof.
  intros Hlen Ho Hbefore.
  pose proof (amuset_outcome d data (IndexList xs) (IndexList ys) basis progress h) as Hbatch.
  rewrite (amuset_value_batch _ _ _ _ _ _ _ _ _ Ho) in Hbatch.
  set (k := length ys) in *.
  replace (seq 0 (length xs)) with (seq 0 k ++ k :: seq (Datatypes.S k) (length xs - k - 1))
    in Hbatch.
  2: { replace (length xs) with (k + Datatypes.S (length xs - k - 1)) at 2 by lia.
       by rewrite seq_app. }
  rewrite (rmapM_first_raise _ _ _ _ IndexError) in Hbatch; [done| |].
  - apply Forall_forall. intros i Hi. apply in_seq in Hi as [_ Hi].
    cbn in Hi.
    destruct (lookup_lt_is_Some_2 xs i) as [x' Hx']; [lia|].
    destruct (lookup_lt_is_Some_2 ys i) as [y' Hy']; [done|].
    destruct (Hbefore i x' y' Hx' Hy') as [[res' h''] Hok].
    apply amuset_ok_value in Hok.
    rewrite (amuset_value_single _ _ _ _ _ _ _ _ _ Ho) in Hok.
    destruct (pair_value core x' y') as [r|?] eqn:Hv'; [|done].
    exists r. unfold pair_outcome, getitem. by rewrite Hx', Hy'.
  - unfold pair_outcome, getitem.
    destruct (lookup_lt_is_Some_2 xs k) as [x' ->]; [lia|]. cbn.
    by rewrite (proj2 (lookup_ge_None ys k)) by (subst k; lia).
Qed.

(** X4.  With an empty list of pairs a driver computes nothing after
    building [psi] and returns two empty lists. *)
Theorem no_pairs_give_empty_lists (d : driver) data (ys : list (list Z))
    basis progress (h : store) (init : list ndarray) (core : ndarray) :
  orthonormalized d data basis progress = Ok (init ++ [core]) ->
  exists h', amuset d data (IndexList []) (IndexList ys) basis progress h = Ok (Lists [] [], h')
             /\ arrays h' = arrays h ++ init ++ [core].
Proof.
  intros Ho. rewrite amuset_unfold, Ho.
  unfold amuset_eigen.
  rewrite (bind_get_tensor _ {| cores := seq (length (arrays h)) (length (init ++ [core])) |})
    by apply lookup_snoc.
  cbn [cores]. rewrite length_app. cbn [length]. rewrite seq_app. cbn [seq].
  rewrite last_item_snoc, bind_lift_ok. cbn.
  eexists. split; reflexivity.
Qed.

End DriverProperties.

Lemma amuset_loop_ext {S : Scalar} {L : Lapack} (psi : tt_ref) (last_core : loc)
    (xs ys ys' : list (list Z)) (range : list nat) :
  (forall i, In i range -> getitem ys i = getitem ys' i) ->
  forall acc (h : store),
  amuset_loop psi last_core xs ys range acc h = amuset_loop psi last_core xs ys' range acc h.
Proof.
  induction range as [|i range IH]; intros Hext acc h; [done|].
  cbn [amuset_loop]. unfold bind.
  assert (Hpair : amuset_pair psi last_core xs ys i acc h
                  = amuset_pair psi last_core xs ys' i acc h).
  { unfold amuset_pair. destruct acc as [evs ets].
    destruct (getitem xs i) as [x|e]; [|by rewrite !bind_lift_raise].
    rewrite !bind_lift_ok. by rewrite (Hext i (or_introl eq_refl)). }
  rewrite Hpair.
  destruct (amuset_pair psi last_core xs ys' i acc h) as [[acc' h']|e]; [|reflexivity].
  apply IH. intros j Hj. apply Hext. by right.
Qed.

(** X5.  The drivers never compare the lengths of the two lists: y index
    sets beyond the number of x index sets are not read, and the call does
    exactly what it does without them. *)
Theorem surplus_y_indices_are_ignored {S : Scalar} {L : Lapack} {T : Transform}
    (d : driver) data (xs ys extra : list (list Z)) basis progress (h : store) :
  length xs <= length ys ->
  amuset d data (IndexList xs) (IndexList (ys ++ extra)) basis progress h
  = amuset d data (IndexList xs) (IndexList ys) basis progress h.
Proof.
  intros Hlen. rewrite !amuset_unfold.
  destruct (orthonormalized d data basis progress) as [cs|e]; [|done].
  unfold amuset_eigen, bind.
  destruct (get_tensor _ _) as [[t h0]|e]; [|done].
  destruct (lift (last_item (cores t)) h0) as [[last_core h1]|e]; [|done].
  cbn [as_index_lists lift].
  rewrite (amuset_loop_ext _ _ xs (ys ++ extra) ys); [done|].
  intros i Hi. apply in_seq in Hi as [_ Hi]. unfold getitem.
  by rewrite lookup_app_l by lia.
Qed.

Lemma surplus_y_indices_are_ignored_witness :
  hosvd64 psi_2 (IndexList [[0; 1]%Z]) (IndexList ([[2; 3]%Z] ++ [[7; 8; 9]%Z])) tt
    hosvd_threshold false empty_store
  = hosvd64 psi_2 (IndexList [[0; 1]%Z]) (IndexList [[2; 3]%Z]) tt hosvd_threshold false
      empty_store.
Proof.
  apply (@surplus_y_indices_are_ignored float64 table_lapack prepared
           (@Hosvd float64 hosvd_threshold) psi_2 [[0; 1]%Z] [[2; 3]%Z] [[7; 8; 9]%Z]
           tt false empty_store).
  cbn. lia.
Defined.

(** ** Errors of [_reduced_matrix] *)

Section ReducedMatrixErrors.
Context {S : Scalar} {L : Lapack}.

(** [j] is a valid index into an axis of length [n]. *)
Definition in_axis (n : nat) (j : Z) : Prop := (- Z.of_nat n <= j < Z.of_nat n)%Z.

Lemma norm_index_cases (n : nat) (j : Z) :
  (in_axis n j /\ exists k, norm_index n j = Ok k)
  \/ (~ in_axis n j /\ norm_index n j = Raise IndexError).
Proof.
  unfold norm_index, in_axis.
  destruct ((0 <=? j)%Z && (j <? Z.of_nat n)%Z) eqn:E1.
  - left. apply andb_true_iff in E1 as [H1 H2].
    apply Z.leb_le in H1. apply Z.ltb_lt in H2. split; [lia|by eexists].
  - destruct ((- Z.of_nat n <=? j)%Z && (j <? 0)%Z) eqn:E2.
    + left. apply andb_true_iff in E2 as [H1 H2].
      apply Z.leb_le in H1. apply Z.ltb_lt in H2. split; [lia|by eexists].
    + right. split; [|done]. intros [H1 H2].
      apply andb_false_iff in E1 as [E1|E1], E2 as [E2|E2];
        try apply Z.leb_gt in E1; try apply Z.ltb_ge in E1;
        try apply Z.leb_gt in E2; try apply Z.ltb_ge in E2; lia.
Qed.

Lemma rmapM_norm_index_cases (n : nat) (idx : list Z) :
  (Forall (in_axis n) idx /\ exists js, rmapM (norm_index n) idx = Ok js)
  \/ (~ Forall (in_axis n) idx /\ rmapM (norm_index n) idx = Raise IndexError).
Proof.
  induction idx as [|j idx IH]; cbn.
  - left. split; [constructor|by eexists].
  - destruct (norm_index_cases n j) as [[Hj [k ->]]|[Hj ->]]; cbn.
    + destruct IH as [[Hall [js ->]]|[Hall ->]]; cbn.
      * left. split; [by constructor|by eexists].
      * right. split; [|done]. by inversion 1.
    + right. split; [|done]. by inversion 1.
Qed.

(** [a[:, idx, :, :]] on an array of at least four axes: the slice, with
    [len(idx)] as its second axis, or an IndexError when an index is out of
    range. *)
Lemma getitem_axis1_cases (core : ndarray) (idx : list Z) (d0 n d2 d3 : nat) (rest : list nat) :
  shape core = d0 :: n :: d2 :: d3 :: rest ->
  (Forall (in_axis n) idx
   /\ exists a, getitem_axis1 core idx = Ok a
                /\ shape a = d0 :: length idx :: d2 :: d3 :: rest)
  \/ (~ Forall (in_axis n) idx /\ getitem_axis1 core idx = Raise IndexError).
Proof.
  intros Hsh. unfold getitem_axis1. rewrite Hsh.
  destruct (rmapM_norm_index_cases n idx) as [[Hall [js ->]]|[Hall ->]]; cbn.
  - left. split; [done|]. by eexists.
  - by right.
Qed.

(** X6.  An index outside [-n, n) in either index set makes
    [_reduced_matrix] raise IndexError, [n] being the length of the snapshot
    axis of the last core. *)
Theorem index_out_of_range_raises (h : store) (last_core : loc) (core : ndarray)
    (x y : list Z) (threshold : F) (d0 n d2 d3 : nat) (rest : list nat) (j : Z) :
  arrays h !! last_core = Some core ->
  shape core = d0 :: n :: d2 :: d3 :: rest ->
  In j x \/ In j y ->
  ~ in_axis n j ->
  _reduced_matrix last_core x y threshold h = Raise IndexError.
Proof.
  intros Hcore Hsh Hin Hj.
  rewrite (reduced_matrix_run _ _ _ _ _ _ Hcore). unfold reduced_value.
  destruct (getitem_axis1_cases core x _ _ _ _ _ Hsh) as [[Hx (xs & -> & _)]|[_ ->]]; [|done].
  destruct (getitem_axis1_cases core y _ _ _ _ _ Hsh) as [[Hy (ys & -> & _)]|[_ ->]]; [|done].
  exfalso. apply Hj.
  destruct Hin as [Hin|Hin];
    [apply (proj1 (List.Forall_forall _ _) Hx j Hin)|apply (proj1 (List.Forall_forall _ _) Hy j Hin)].
Qed.

(** X7.  On a last core of the layout [(r, n, 1, 1)], a single x index or
    a bond dimension [r = 1] makes [_reduced_matrix] raise ValueError:
    [np.squeeze] drops that axis too and the SVD is not given a matrix. *)
Theorem single_x_index_raises (h : store) (last_core : loc) (core : ndarray)
    (x y : list Z) (threshold : F) (r n : nat) :
  arrays h !! last_core = Some core ->
  shape core = [r; n; 1; 1] ->
  Forall (in_axis n) x -> Forall (in_axis n) y ->
  r = 1 \/ length x = 1 ->
  _reduced_matrix last_core x y threshold h = Raise ValueError.
Proof.
  intros Hcore Hsh Hx Hy Hone.
  rewrite (reduced_matrix_run _ _ _ _ _ _ Hcore). unfold reduced_value.
  destruct (getitem_axis1_cases core x _ _ _ _ _ Hsh) as [[_ (xs & -> & Hxs)]|[Hn _]]; [|done].
  destruct (getitem_axis1_cases core y _ _ _ _ _ Hsh) as [[_ (ys & -> & Hys)]|[Hn _]]; [|done].
  cbn [rbind]. unfold slice_svd. rewrite Hxs. cbn.
  destruct Hone as [-> | ->]; cbn; [by destruct (length x =? 1)|by destruct (r =? 1)].
Qed.

(** X8.  Index sets of different lengths make [_reduced_matrix] raise
    ValueError in the product [v.dot(psi_y_last.T)], after the SVD. *)
Theorem index_sets_of_different_lengths_raise (h : store) (last_core : loc) (core : ndarray)
    (x y : list Z) (threshold : F) (r n : nat) (xs : ndarray) (U s V : list F) (s0 : F)
    (rest : list F) :
  arrays h !! last_core = Some core ->
  shape core = [r; n; 1; 1] ->
  r <> 1 -> length x <> 1 -> length y <> 1 ->
  Forall (in_axis n) y ->
  getitem_axis1 core x = Ok xs ->
  gesvd r (length x) (data xs) = Some (U, s, V) ->
  s = s0 :: rest ->
  length x <> length y ->
  _reduced_matrix last_core x y threshold h = Raise ValueError.
Proof.
  intros Hcore Hsh Hr Hlx Hly Hy Hxs Hsvd -> Hne.
  rewrite (reduced_matrix_run _ _ _ _ _ _ Hcore). unfold reduced_value.
  assert (Hshx : shape xs = [r; length x; 1; 1]).
  { destruct (getitem_axis1_cases core x _ _ _ _ _ Hsh) as [[_ (xs' & Hxs' & Hs)]|[_ Hxs']];
      rewrite Hxs in Hxs'; [by injection Hxs' as <-|done]. }
  rewrite Hxs.
  destruct (getitem_axis1_cases core y _ _ _ _ _ Hsh) as [[_ (ys & -> & Hys)]|[Hn _]]; [|done].
  cbn [rbind]. unfold slice_svd. rewrite Hshx, Hys. cbn [squeeze_shape List.filter].
  apply Nat.eqb_neq in Hr, Hlx, Hly. rewrite Hr, Hlx, Hly. cbn [negb Nat.eqb].
  rewrite Hsvd. cbn [rbind].
  unfold truncate_and_reduce, first_entry. cbn [data rbind].
  unfold take_columns at 1, take_rows at 1. cbn [shape rbind].
  unfold reduced_product, transpose. cbn [shape rbind].
  unfold dot at 1. cbn [shape].
  apply Nat.eqb_neq in Hne. by rewrite Hne.
Qed.

End ReducedMatrixErrors.

(** ** NaN and infinities *)

Lemma float_leb_self_false (x : float) :
  PrimFloat.leb x x = false -> Prim2SF x = S754_nan.
Proof.
  rewrite FloatAxioms.leb_spec. unfold SFleb.
  destruct (Prim2SF x) as [[]|[]| |[] m e]; cbn; try done;
    rewrite Z.compare_refl, Pos.compare_cont_refl; done.
Qed.

(** Any ratio to a NaN is NaN and passes no threshold test. *)
Lemma float_nan_ratio (x s0 t : float) :
  PrimFloat.leb s0 s0 = false -> PrimFloat.ltb t (x / s0) = false.
Proof.
  intros Hnan. apply float_leb_self_false in Hnan.
  rewrite FloatAxioms.ltb_spec, FloatAxioms.div_spec, Hnan.
  unfold SF64div, SFdiv, SFltb.
  destruct (Prim2SF x) as [[]|[]| |[] ? ?], (Prim2SF t) as [[]|[]| |[] ? ?]; done.
Qed.

(** X9.  The SVD is called with [check_finite=False]: a NaN among its results is
    not rejected.  When the largest singular value [s[0]] is NaN,
    [_reduced_matrix] raises nothing, keeps no singular value and returns
    four empty arrays. *)
Theorem nan_singular_value_is_not_an_error {L : @Lapack float64}
    (h : @store float64) (last_core : loc) (core : @ndarray float64) (x y : list Z)
    (threshold : float) (xs ys : @ndarray float64) (r c : nat) (U s V : list float)
    (s0 : float) (rest : list float) :
  arrays h !! last_core = Some core ->
  getitem_axis1 core x = Ok xs ->
  getitem_axis1 core y = Ok ys ->
  squeeze_shape (shape xs) = [r; c] ->
  squeeze_shape (shape ys) = [r; c] ->
  @gesvd float64 L r c (data xs) = Some (U, s, V) ->
  s = s0 :: rest ->
  PrimFloat.leb s0 s0 = false ->
  exists h',
    @_reduced_matrix float64 L last_core x y threshold h
    = Ok ((array64 [0; 0] [], array64 [r; 0] [], array64 [0] [], array64 [0; c] []), h').
Proof.
  intros Hcore Hxs Hys Hsx Hsy Hsvd Hs Hnan.
  eapply (@reduced_matrix_of_empty_filter float64); try done.
  apply (@retained_nil float64), Forall_forall. intros v _. cbn.
  by apply float_nan_ratio.
Qed.

(** X10.  [np.linalg.eig] refuses a matrix with an infinite or NaN entry: when
    the reduced matrix of the pair has one, the call of a driver on that
    pair raises LinAlgError. *)
Theorem non_finite_reduced_matrix_raises {S : Scalar} {L : Lapack} {T : Transform}
    (d : driver) dm (x y : list Z) basis progress (h : store)
    (init : list ndarray) (core : ndarray) (g : store) (l : loc) (m u s v : ndarray) g' :
  orthonormalized d dm basis progress = Ok (init ++ [core]) ->
  arrays g !! l = Some core ->
  _reduced_matrix l x y default_threshold g = Ok ((m, u, s, v), g') ->
  forallb fisfinite (data m) = false ->
  amuset d dm (IndexArray x) (IndexArray y) basis progress h = Raise LinAlgError.
Proof.
  intros Ho Hg Hred Hinf.
  destruct (reduced_matrix_frame _ _ _ _ _ _ _ Hred) as (_ & _ & core' & Hc & Hv).
  rewrite Hg in Hc. injection Hc as <-.
  pose proof (amuset_outcome d dm (IndexArray x) (IndexArray y) basis progress h) as Hout.
  rewrite (amuset_value_single _ _ _ _ _ _ _ _ _ Ho) in Hout.
  unfold pair_value in Hout. rewrite Hv in Hout. cbn [rbind] in Hout.
  assert (Heig : np_linalg_eig m = Raise LinAlgError).
  { unfold np_linalg_eig. rewrite Hinf.
    destruct (shape m) as [|n [|n' [|? ?]]]; try done. cbn. by destruct (negb (n =? n')). }
  by rewrite Heig in Hout.
Qed.

(** ** Shapes and contents of the results of one pair *)

Section PairProperties.
Context {S : Scalar} {L : Lapack}.

(** The shapes [dot] accepts and the shape it returns. *)
Lemma dot_ok_inv (a b m : ndarray) :
  dot a b = Ok m ->
  match shape a, shape b with
  | [r; n], [n'; c] => n = n' /\ shape m = [r; c]
  | [r; n], [n'] => n = n' /\ shape m = [r]
  | [n], [n'; c] => n = n' /\ shape m = [c]
  | _, _ => False
  end.
Proof.
  unfold dot.
  destruct (shape a) as [|r [|n [|? ?]]], (shape b) as [|n' [|c [|? ?]]]; try done;
    (destruct (_ =? _) eqn:E; [|done]); apply Nat.eqb_eq in E; by intros [= <-].
Qed.

Lemma np_linalg_eig_ok_inv (m : ndarray) w vecs :
  np_linalg_eig m = Ok (w, vecs) -> exists n, shape m = [n; n].
Proof.
  unfold np_linalg_eig.
  destruct (shape m) as [|n [|n' [|? ?]]]; try done.
  destruct (n =? n') eqn:E; [|done]. apply Nat.eqb_eq in E as ->. by exists n'.
Qed.

(** The shapes of what [_reduced_matrix] returns. *)
Lemma reduced_value_shapes (core : ndarray) (x y : list Z) (threshold : F) m u s v :
  reduced_value core x y threshold = Ok (m, u, s, v) ->
  exists r c k b d,
    shape u = [r; k] /\ shape s = [k] /\ shape v = [k; c]
    /\ shape d = [k; k] /\ dot b d = Ok m.
Proof.
  unfold reduced_value. intros H.
  destruct (getitem_axis1 core x) as [xs|e]; [|done]. cbn [rbind] in H.
  destruct (getitem_axis1 core y) as [ys|e]; [|done]. cbn [rbind] in H.
  unfold slice_svd in H.
  destruct (squeeze_shape (shape xs)) as [|r [|c [|? ?]]]; try done.
  destruct (gesvd r c (data xs)) as [[[U s_all] V]|]; [|done].
  cbn [rbind] in H. unfold truncate_and_reduce in H.
  destruct (first_entry _) as [s0|e]; [|done]. cbn [rbind data] in H.
  unfold take_columns at 1, take_rows at 1 in H. cbn [shape rbind] in H.
  unfold reduced_product in H.
  destruct (transpose _) as [yT|e]; [|done]. cbn [rbind] in H.
  destruct (dot _ yT) as [a|e]; [|done]. cbn [rbind] in H.
  destruct (dot a _) as [b|e]; [|done]. cbn [rbind] in H.
  unfold diag, reciprocal, take_entries in H. cbn [shape rbind] in H.
  destruct (dot b _) as [m'|e] eqn:Hm; [|done]. cbn [rbind] in H.
  injection H as <- <- <- <-.
  exists r, c, (length (retained s_all s0 threshold)), b. eexists.
  split_and!; last exact Hm. all: reflexivity.
Qed.

Lemma map_nth_seq {A B} (f : A -> B) (l : list A) (d : A) :
  map (fun j => f (nth j l d)) (seq 0 (length l)) = map f l.
Proof.
  induction l as [|a l IH]; cbn; [done|]. f_equal.
  by rewrite <- fmap_S_seq, <- list_fmap_compose.
Qed.

(** One pass of the loop body that succeeds, read through the cores of
    [psi]. *)
Lemma amuset_pair_cores (psi : tt_ref) (last_core : loc) (xs ys : list (list Z)) (i : nat)
    acc (h : store) acc' h' (others : list ndarray) (c_old : ndarray) :
  read_cores h psi = Some (others ++ [c_old]) ->
  amuset_pair psi last_core xs ys i acc h = Ok (acc', h') ->
  exists core x y ev c,
    arrays h !! last_core = Some core
    /\ getitem xs i = Ok x /\ getitem ys i = Ok y
    /\ pair_value core x y = Ok (ev, c)
    /\ acc' = (acc.1 ++ [ev], acc.2 ++ [psi])
    /\ read_cores h' psi = Some (others ++ [c]).
Proof.
  intros Hread Hrun. unfold read_cores in Hread.
  destruct (tensors h !! psi) as [t|] eqn:Hpsi; [|done]. cbn in Hread.
  apply mapM_Some in Hread.
  apply Forall2_app_inv_r in Hread as (init & lst & Hinit & Hlst & Hcores).
  destruct (amuset_pair_inv _ _ _ _ _ _ _ _ _ _ Hpsi Hrun)
    as (core & x & y & ev & c & cs & Hcore & Hx & Hy & Hv & Hcs & -> & Harr & Htens).
  exists core, x, y, ev, c. split_and!; try done.
  inversion Hlst as [|old ? ? ? Hold Hnil]; subst. inversion Hnil; subst.
  rewrite Hcores, set_last_item_snoc in Hcs. injection Hcs as <-.
  unfold read_cores. rewrite Htens.
  rewrite list_lookup_insert_eq by (by eapply lookup_lt_Some). cbn.
  apply mapM_Some. apply Forall2_app.
  - eapply Forall2_impl; [|exact Hinit]. cbn. intros l a' Hl.
    rewrite Harr, <- app_assoc. by apply lookup_app_l_Some.
  - repeat constructor. rewrite Harr. apply lookup_snoc.
Qed.

(** X11.  For every pair that is processed, the sizes agree: with [k] the number
    of columns of the [u] that [_reduced_matrix] returned, [s] has [k]
    entries, [v] has [k] rows, the reduced matrix is [k] by [k], the pair
    has [k] eigenvalues, and the new last core has the shape
    [(r, k, 1, 1)]. *)
Theorem pair_sizes_agree (psi : tt_ref) (last_core : loc) (xs ys : list (list Z)) (i : nat)
    acc (h : store) acc' h' (others : list ndarray) (c_old : ndarray) :
  read_cores h psi = Some (others ++ [c_old]) ->
  amuset_pair psi last_core xs ys i acc h = Ok (acc', h') ->
  exists x y matrix u s v h1 ev new_core r c k,
    getitem xs i = Ok x /\ getitem ys i = Ok y
    /\ _reduced_matrix last_core x y default_threshold h = Ok ((matrix, u, s, v), h1)
    /\ shape u = [r; k] /\ shape s = [k] /\ shape v = [k; c] /\ shape matrix = [k; k]
    /\ acc'.1 = acc.1 ++ [ev] /\ length ev = k
    /\ read_cores h' psi = Some (others ++ [new_core])
    /\ shape new_core = [r; k; 1; 1].
Proof.
  intros Hread Hrun.
  destruct (amuset_pair_cores _ _ _ _ _ _ _ _ _ _ _ Hread Hrun)
    as (core & x & y & ev & cnew & Hcore & Hx & Hy & Hv & -> & Hread').
  destruct (pair_value_inv _ _ _ _ _ Hv) as (m & u & s & v & w & vecs & Hred & Heig & -> & Hc).
  destruct (reduced_value_shapes _ _ _ _ _ _ _ _ Hred)
    as (r & c & k & b & d & Hu & Hs & Hvs & Hd & Hm).
  destruct (np_linalg_eig_ok_inv _ _ _ Heig) as [n Hn].
  assert (Hmk : shape m = [k; k]).
  { apply dot_ok_inv in Hm. rewrite Hd, Hn in Hm.
    destruct (shape b) as [|r' [|n' [|? ?]]]; try done.
    - by destruct Hm.
    - destruct Hm as [_ [= -> ->]]. done. }
  destruct (eigen_core_inv _ _ _ _ Hc) as (d' & a & b' & r' & k' & Hd' & Ha & Hb' & Hsh & ->).
  assert (Hd'sh : shape d' = [k; k]).
  { unfold diag, reciprocal in Hd'. cbn in Hd'. rewrite Hs in Hd'. by injection Hd' as <-. }
  apply dot_ok_inv in Ha. rewrite Hu, Hd'sh in Ha. destruct Ha as [_ Ha].
  apply dot_ok_inv in Hb'. rewrite Ha in Hb'. cbn [real_columns shape] in Hb'.
  destruct Hb' as [Hkw Hb'sh]. rewrite Hsh in Hb'sh. injection Hb'sh as -> ->.
  assert (Hlen : length (argsort (map eigen_distance w)) = length w).
  { rewrite (Permutation_length (argsort_perm _)), length_seq. by rewrite length_map. }
  exists x, y, m, u, s, v,
    {| arrays := arrays h ++ reduced_temporaries core x y; tensors := tensors h |},
    (real_entries w (argsort (map eigen_distance w))).
  eexists. exists r, c, k.
  split_and!; [done|done| |done|done|done|done|done| |exact Hread'|].
  - rewrite (reduced_matrix_run _ _ _ _ _ _ Hcore). by rewrite Hred.
  - unfold real_entries. by rewrite length_map, Hlen.
  - cbn. by rewrite Hlen, Hkw.
Qed.

End PairProperties.

(** X12.  The eigenvalues a driver returns for a pair are the real parts of the
    eigenvalues that [np.linalg.eig] computed for that pair's reduced
    matrix, each exactly once: the reordering loses and repeats none. *)
Theorem eigenvalues_are_the_real_parts {S : Scalar} {L : Lapack} {T : Transform}
    (d : driver) dm xi yi basis progress (h : store) res h' :
  amuset d dm xi yi basis progress h = Ok (res, h') ->
  exists init core,
    orthonormalized d dm basis progress = Ok (init ++ [core])
    /\ Forall (fun ev =>
         exists x y matrix u s v w vecs,
           reduced_value core x y default_threshold = Ok (matrix, u, s, v)
           /\ np_linalg_eig matrix = Ok (w, vecs)
           /\ Permutation ev (map fst w))
       (eigenvalue_arrays res).
Proof.
  intros Hrun. destruct (amuset_run _ _ _ _ _ _ _ _ _ Hrun)
    as (init & core & xs & ys & results & new & Ho & _ & Hres & -> & _).
  exists init, core. split; [exact Ho|].
  apply Forall_fmap, Forall_lookup. intros i [ev c] Hi. cbn.
  destruct (Forall2_lookup_r _ _ _ _ _ Hres Hi) as (j & _ & (x & y & _ & _ & Hv)).
  destruct (pair_value_inv _ _ _ _ _ Hv) as (m & u & s & v & w & vecs & Hred & Heig & -> & _).
  exists x, y, m, u, s, v, w, vecs. split_and!; [done|done|].
  unfold real_entries. rewrite argsort_perm, length_map.
  by rewrite (map_nth_seq fst).
Qed.

(** ** Negative indices and the two drivers *)

(** The index that numpy reads for [j] on an axis of length [n]. *)
Definition wrap_index (n : nat) (j : Z) : Z :=
  if (j <? 0)%Z then (j + Z.of_nat n)%Z else j.

Lemma norm_index_wrap (n : nat) (j : Z) :
  in_axis n j -> norm_index n (wrap_index n j) = norm_index n j.
Proof.
  unfold in_axis, wrap_index. intros Hj.
  destruct (Z.ltb_spec j 0) as [Hneg|Hpos]; [|done].
  unfold norm_index.
  replace ((0 <=? j + Z.of_nat n)%Z && (j + Z.of_nat n <? Z.of_nat n)%Z) with true
    by (symmetry; apply andb_true_iff; split; [apply Z.leb_le|apply Z.ltb_lt]; lia).
  replace ((0 <=? j)%Z && (j <? Z.of_nat n)%Z) with false
    by (symmetry; apply andb_false_iff; left; apply Z.leb_gt; lia).
  replace ((- Z.of_nat n <=? j)%Z && (j <? 0)%Z) with true
    by (symmetry; apply andb_true_iff; split; [apply Z.leb_le|apply Z.ltb_lt]; lia).
  reflexivity.
Qed.

Lemma getitem_axis1_wrap {S : Scalar} (core : ndarray) (idx : list Z)
    (d0 n d2 d3 : nat) (rest : list nat) :
  shape core = d0 :: n :: d2 :: d3 :: rest ->
  Forall (in_axis n) idx ->
  getitem_axis1 core (map (wrap_index n) idx) = getitem_axis1 core idx.
Proof.
  intros Hsh Hidx. unfold getitem_axis1. rewrite Hsh, length_map.
  replace (rmapM (norm_index n) (map (wrap_index n) idx)) with (rmapM (norm_index n) idx);
    [done|].
  induction Hidx as [|j idx Hj _ IH]; cbn; [done|].
  by rewrite (norm_index_wrap _ _ Hj), IH.
Qed.

(** X13.  Negative indices count from the end of the snapshot axis:
    [_reduced_matrix] returns the same, and leaves the same store, when each
    negative index [j] of the two index sets is replaced by [j + n], [n]
    being the length of that axis. *)
Theorem negative_indices_count_from_the_end {S : Scalar} {L : Lapack}
    (h : store) (last_core : loc) (core : ndarray) (x y : list Z) (threshold : F)
    (d0 n d2 d3 : nat) (rest : list nat) :
  arrays h !! last_core = Some core ->
  shape core = d0 :: n :: d2 :: d3 :: rest ->
  Forall (in_axis n) x -> Forall (in_axis n) y ->
  _reduced_matrix last_core (map (wrap_index n) x) (map (wrap_index n) y) threshold h
  = _reduced_matrix last_core x y threshold h.
Proof.
  intros Hcore Hsh Hx Hy.
  rewrite !(reduced_matrix_run _ _ _ _ _ _ Hcore).
  unfold reduced_value, reduced_temporaries.
  by rewrite (getitem_axis1_wrap _ _ _ _ _ _ _ Hsh Hx), (getitem_axis1_wrap _ _ _ _ _ _ _ Hsh Hy).
Qed.

Lemma negative_indices_count_from_the_end_witness :
  @_reduced_matrix float64 table_lapack 1 [0; 1]%Z [2; 3]%Z (@default_threshold float64) store_2
  = @_reduced_matrix float64 table_lapack 1 [-4; 1]%Z [2; -1]%Z (@default_threshold float64)
      store_2.
Proof.
  apply (@negative_indices_count_from_the_end float64 table_lapack store_2 1 last_core_2
           [-4; 1]%Z [2; -1]%Z (@default_threshold float64) 2 4 1 1 [] eq_refl eq_refl).
  - repeat constructor; cbn; lia.
  - repeat constructor; cbn; lia.
Defined.



(** ** The properties on concrete inputs *)

Lemma batch_agrees_with_separate_calls_witness :
  let run := hosvd64 psi_2 (IndexList [[0; 1]; [2; 3]]%Z) (IndexList [[2; 3]; [0; 1]]%Z) tt
               hosvd_threshold false empty_store in
  let p := outcome run (@Lists float64 [] [], empty_store) in
  run = Ok p
  /\ exists ev q h_i,
       hosvd64 psi_2 (IndexArray [2; 3]%Z) (IndexArray [0; 1]%Z) tt hosvd_threshold false
         empty_store = Ok (Unwrapped ev q, h_i)
       /\ eigenvalue_arrays p.1 !! 1 = Some ev
       /\ Forall (fun t => read_cores p.2 t = read_cores h_i q) (eigentensor_refs p.1).
Proof.
  cbv zeta. split; [vm_compute; reflexivity|].
  destruct (@batch_agrees_with_separate_calls float64 table_lapack prepared
              (@Hosvd float64 hosvd_threshold) psi_2
              [[0; 1]; [2; 3]]%Z [[2; 3]; [0; 1]]%Z tt false empty_store
              (outcome (hosvd64 psi_2 (IndexList [[0; 1]; [2; 3]]%Z)
                          (IndexList [[2; 3]; [0; 1]]%Z) tt hosvd_threshold false empty_store)
                 (@Lists float64 [] [], empty_store)).1
              (outcome (hosvd64 psi_2 (IndexList [[0; 1]; [2; 3]]%Z)
                          (IndexList [[2; 3]; [0; 1]]%Z) tt hosvd_threshold false empty_store)
                 (@Lists float64 [] [], empty_store)).2
              ltac:(vm_compute; reflexivity) 1 [2; 3]%Z [0; 1]%Z eq_refl eq_refl)
    as (ev & q & h_i & Hsingle & Hev & Hlast).
  exists ev, q, h_i. split_and!; [exact Hsingle|exact Hev|exact (Hlast eq_refl)].
Defined.

Lemma batch_raises_first_failure_witness :
  hosvd64 psi_2 (IndexArray [0; 9]%Z) (IndexArray [2; 3]%Z) tt hosvd_threshold false empty_store
  = Raise IndexError
  /\ hosvd64 psi_2 (IndexList [[0; 1]; [0; 9]; [2; 3]]%Z) (IndexList [[2; 3]; [2; 3]; [0; 1]]%Z)
       tt hosvd_threshold false empty_store
     = Raise IndexError.
Proof.
  split; [vm_compute; reflexivity|].
  apply (@batch_raises_first_failure float64 table_lapack prepared
           (@Hosvd float64 hosvd_threshold) psi_2
           [[0; 1]; [0; 9]; [2; 3]]%Z [[2; 3]; [2; 3]; [0; 1]]%Z tt false empty_store
           1 [0; 9]%Z [2; 3]%Z IndexError eq_refl eq_refl).
  - intros [|i] x' y' Hi Hx Hy; [|lia]. injection Hx as <-. injection Hy as <-.
    eexists. vm_compute. reflexivity.
  - vm_compute. reflexivity.
Defined.

Lemma missing_y_indices_raise_witness :
  hosvd64 psi_2 (IndexList [[0; 1]; [2; 3]]%Z) (IndexList [[2; 3]]%Z) tt hosvd_threshold false
    empty_store
  = Raise IndexError.
Proof.
  apply (@missing_y_indices_raise float64 table_lapack prepared
           (@Hosvd float64 hosvd_threshold) psi_2
           [[0; 1]; [2; 3]]%Z [[2; 3]]%Z tt false empty_store [first_core_2] last_core_2).
  - cbn. lia.
  - reflexivity.
  - intros [|[|i]] x y Hx Hy; try done. injection Hx as <-. injection Hy as <-.
    eexists. vm_compute. reflexivity.
Defined.

Lemma no_pairs_give_empty_lists_witness :
  exists h', hocur64 psi_2 (IndexList []) (IndexList [[2; 3]]%Z) tt 2 2 false empty_store
             = Ok (@Lists float64 [] [], h')
             /\ arrays h' = psi_2.
Proof.
  apply (@no_pairs_give_empty_lists float64 table_lapack prepared
           (@Hocur float64 2 2) psi_2 [[2; 3]]%Z tt false empty_store
           [first_core_2] last_core_2).
  reflexivity.
Defined.

Lemma index_out_of_range_raises_witness :
  @_reduced_matrix float64 table_lapack 1 [0; 1]%Z [2; -5]%Z (@default_threshold float64) store_2
  = Raise IndexError.
Proof.
  apply (@index_out_of_range_raises float64 table_lapack store_2 1 last_core_2
           [0; 1]%Z [2; -5]%Z (@default_threshold float64) 2 4 1 1 [] (-5)%Z eq_refl eq_refl).
  - right. cbn. tauto.
  - unfold in_axis. lia.
Defined.

Lemma single_x_index_raises_witness :
  @_reduced_matrix float64 table_lapack 1 [0]%Z [2]%Z (@default_threshold float64) store_2
  = Raise ValueError.
Proof.
  apply (@single_x_index_raises float64 table_lapack store_2 1 last_core_2
           [0]%Z [2]%Z (@default_threshold float64) 2 4 eq_refl eq_refl).
  - repeat constructor; cbn; lia.
  - repeat constructor; cbn; lia.
  - right. reflexivity.
Defined.

Lemma index_sets_of_different_lengths_raise_witness :
  @_reduced_matrix float64 table_lapack 1 [0; 1]%Z [2; 3; 0]%Z (@default_threshold float64)
    store_2
  = Raise ValueError.
Proof.
  apply (@index_sets_of_different_lengths_raise float64 table_lapack store_2 1 last_core_2
           [0; 1]%Z [2; 3; 0]%Z (@default_threshold float64) 2 4
           (array64 [2; 2; 1; 1] [2; 0; 0; 1]%float)
           (identity_matrix 2) [2; 1]%float (identity_matrix 2) 2%float [1%float]
           eq_refl eq_refl).
  - lia.
  - cbn. lia.
  - cbn. lia.
  - repeat constructor; cbn; lia.
  - reflexivity.
  - reflexivity.
  - reflexivity.
  - cbn. lia.
Defined.

(** A LAPACK that is handed NaN returns NaN throughout. *)
Definition nan_gesvd (r c : nat) (a : list float)
  : option (list float * list float * list float) :=
  if forallb (fun v => PrimFloat.eqb v v) a then table_gesvd r c a
  else Some (repeat nan (r * Nat.min r c), repeat nan (Nat.min r c),
             repeat nan (Nat.min r c * c)).

Definition nan_lapack : @Lapack float64 :=
  @Build_Lapack float64 nan_gesvd (fun _ _ a => map (fun _ => 0%float) a) table_geev.

Definition last_core_nan : @ndarray float64 :=
  array64 [2; 4; 1; 1] [nan; 0; 1; 0;
                        0;   1; 0; 1]%float.

Lemma nan_singular_value_is_not_an_error_witness :
  @gesvd float64 nan_lapack 2 2 [nan; 0; 0; 1]%float
  = Some (repeat nan 4, [nan; nan], repeat nan 4)
  /\ exists h',
       @_reduced_matrix float64 nan_lapack 1 [0; 1]%Z [2; 3]%Z (@default_threshold float64)
         (store_of last_core_nan)
       = Ok ((array64 [0; 0] [], array64 [2; 0] [], array64 [0] [], array64 [0; 2] []), h').
Proof.
  split; [reflexivity|].
  apply (@nan_singular_value_is_not_an_error nan_lapack (store_of last_core_nan) 1
           last_core_nan [0; 1]%Z [2; 3]%Z (@default_threshold float64)
           (array64 [2; 2; 1; 1] [nan; 0; 0; 1]%float)
           (array64 [2; 2; 1; 1] [1; 0; 0; 1]%float) 2 2
           (repeat nan 4) [nan; nan] (repeat nan 4) nan [nan]);
    reflexivity.
Defined.

Lemma non_finite_reduced_matrix_raises_witness :
  let run := @_reduced_matrix float64 table_lapack 1 [0; 1]%Z [2; 3]%Z
               (@default_threshold float64) (store_of last_core_tiny) in
  (exists u s v g', run = Ok ((array64 [1; 1] [infinity], u, s, v), g'))
  /\ hosvd64 [first_core_2; last_core_tiny] (IndexArray [0; 1]%Z) (IndexArray [2; 3]%Z) tt
       hosvd_threshold false empty_store
     = Raise LinAlgError.
Proof.
  cbv zeta. split; [do 4 eexists; vm_compute; reflexivity|].
  apply (@non_finite_reduced_matrix_raises float64 table_lapack prepared
           (@Hosvd float64 hosvd_threshold) [first_core_2; last_core_tiny]
           [0; 1]%Z [2; 3]%Z tt false empty_store [first_core_2] last_core_tiny
           (store_of last_core_tiny) 1
           (array64 [1; 1] [infinity]) (array64 [2; 1] [1; 0]%float)
           (array64 [1] [0x1p-1074]%float) (array64 [1; 2] [1; 0]%float)
           (outcome (@_reduced_matrix float64 table_lapack 1 [0; 1]%Z [2; 3]%Z
                       (@default_threshold float64) (store_of last_core_tiny))
              ((array64 [] [], array64 [] [], array64 [] [], array64 [] []),
               store_of last_core_tiny)).2).
  - reflexivity.
  - reflexivity.
  - vm_compute. reflexivity.
  - reflexivity.
Defined.

Lemma pair_sizes_agree_witness :
  let run := @amuset_pair float64 table_lapack 0 1 [[0; 1]%Z] [[2; 3]%Z] 0 ([], []) store_2 in
  let p := outcome run (([], []), store_2) in
  run = Ok p
  /\ exists ev new_core r k,
       p.1.1 = [ev] /\ length ev = k
       /\ read_cores p.2 0 = Some ([first_core_2] ++ [new_core])
       /\ shape new_core = [r; k; 1; 1].
Proof.
  cbv zeta. split; [vm_compute; reflexivity|].
  destruct (@pair_sizes_agree float64 table_lapack
              0 1 [[0; 1]%Z] [[2; 3]%Z] 0 ([], []) store_2
              (outcome (@amuset_pair float64 table_lapack 0 1 [[0; 1]%Z] [[2; 3]%Z] 0 ([], [])
                          store_2) (([], []), store_2)).1
              (outcome (@amuset_pair float64 table_lapack 0 1 [[0; 1]%Z] [[2; 3]%Z] 0 ([], [])
                          store_2) (([], []), store_2)).2
              [first_core_2] last_core_2)
    as (x & y & m & u & s & v & h1 & ev & new_core & r & c & k & H).
  - reflexivity.
  - vm_compute. reflexivity.
  - exists ev, new_core, r, k. split_and!; apply H.
Defined.

Lemma eigenvalues_are_the_real_parts_witness :
  let run := hosvd64 psi_3 (IndexArray [0; 1; 2]%Z) (IndexArray [3; 4; 5]%Z) tt
               hosvd_threshold false empty_store in
  let p := outcome run (@Unwrapped float64 [] 0, empty_store) in
  run = Ok p
  /\ Forall (fun ev => exists (matrix : @ndarray float64) w vecs,
               @np_linalg_eig float64 table_lapack matrix = Ok (w, vecs)
               /\ Permutation ev (map fst w))
       (@eigenvalue_arrays float64 p.1).
Proof.
  cbv zeta. split; [vm_compute; reflexivity|].
  destruct (@eigenvalues_are_the_real_parts float64 table_lapack prepared
              (@Hosvd float64 hosvd_threshold) psi_3
              (IndexArray [0; 1; 2]%Z) (IndexArray [3; 4; 5]%Z) tt false empty_store
              (outcome (hosvd64 psi_3 (IndexArray [0; 1; 2]%Z) (IndexArray [3; 4; 5]%Z) tt
                          hosvd_threshold false empty_store)
                 (@Unwrapped float64 [] 0, empty_store)).1
              (outcome (hosvd64 psi_3 (IndexArray [0; 1; 2]%Z) (IndexArray [3; 4; 5]%Z) tt
                          hosvd_threshold false empty_store)
                 (@Unwrapped float64 [] 0, empty_store)).2)
    as (init & core & _ & H).
  - vm_compute. reflexivity.
  - eapply List.Forall_impl; [|exact H].
    intros ev (x & y & m & u & s & v & w & vecs & _ & Heig & Hperm).
    by exists m, w, vecs.
Defined.
